(** * Processamento de CEPs: a shallow embedding of [main.py]

    The script resolves a list of postal codes (CEPs) against two HTTP
    providers, stores the answers in a pandas DataFrame, sends one mail per
    resolved code and prints a PDF summary.

    The embedding keeps the shape of the Python code:
    - Python values that travel through the script (JSON bodies, DataFrame
      cells) are the inductive [pyval]; a [dict] is a [gmap string pyval];
    - the collaborators the script talks to (HTTP, SMTP, the file system,
      the spreadsheet and PDF writers) are the fields of the class
      [Externals], oracles over an abstract [World];
    - statements run in a state-and-exception monad [M]; [try]/[except]/
      [finally] are combinators of that monad, and every call to a
      collaborator leaves an [event] in the [trace].

    Not modelled: the text of log lines and of [print] output (only the
    severity of a log call is kept), the order of the keys of a dict (it
    only fixes the order of spreadsheet columns), the dtype coercions
    pandas applies to numeric cells, and the creation of the TLS context
    at the top of [send_emails].  A [str] is held as its UTF-8 encoding,
    a [string] with one [ascii] per byte. *)

From Stdlib Require Import Floats.SpecFloat.
From stdpp Require Import gmap strings list fin_maps.

Local Open Scope string_scope.
Local Open Scope Z_scope.
Local Open Scope list_scope.

(** ** Python values *)

#[warnings="-register-all"]
Inductive pyval : Type :=
| PNone
| PBool (b : bool)
| PInt (z : Z)
| PFloat (f : spec_float)
| PStr (s : string)
| PList (l : list pyval)
| PDict (d : gmap string pyval).

(** The value pandas puts in a cell no record fills. *)
Definition NaN : pyval := PFloat S754_nan.

(** [bool(v)], as used by [not resposta.get('cep')]. *)
Definition truthy (v : pyval) : bool :=
  match v with
  | PNone => false
  | PBool b => b
  | PInt z => negb (z =? 0)
  | PFloat (S754_zero _) => false
  | PFloat _ => true
  | PStr s => negb (String.eqb s "")
  | PList l => match l with [] => false | _ => true end
  | PDict d => match map_to_list d with [] => false | _ => true end
  end.

(** [v == s] for a string literal [s]. *)
Definition py_eq_str (v : pyval) (s : string) : bool :=
  match v with
  | PStr t => String.eqb t s
  | _ => false
  end.

(** ** Strings: [str.replace] and [str.strip]

    On UTF-8 an encoded character never starts inside another one, so
    [replace] and [in] on the bytes find what Python finds on the
    characters; [strip] has to know how the whitespace characters are
    encoded. *)

(** The characters [str.isspace] holds of, by code point. *)
Definition espacos_unicode : list N :=
  [9; 10; 11; 12; 13; 28; 29; 30; 31; 32; 133; 160; 5760;
   8192; 8193; 8194; 8195; 8196; 8197; 8198; 8199; 8200; 8201; 8202;
   8232; 8233; 8239; 8287; 12288]%N.

Definition octeto (n : N) : Ascii.ascii := Ascii.ascii_of_N n.

(** The UTF-8 encoding of the code point [c]. *)
Definition utf8 (c : N) : string :=
  (if c <? 128 then String (octeto c) ""
   else if c <? 2048 then
     String (octeto (192 + c / 64)) (String (octeto (128 + c mod 64)) "")
   else if c <? 65536 then
     String (octeto (224 + c / 4096))
       (String (octeto (128 + (c / 64) mod 64))
          (String (octeto (128 + c mod 64)) ""))
   else
     String (octeto (240 + c / 262144))
       (String (octeto (128 + (c / 4096) mod 64))
          (String (octeto (128 + (c / 64) mod 64))
             (String (octeto (128 + c mod 64)) ""))))%N.

(** The whitespace characters, encoded: one to three bytes each. *)
Definition espacos : list string := utf8 <$> espacos_unicode.

(** [c.isspace()] for one encoded character [c]. *)
Definition py_isspace (c : string) : bool := existsb (String.eqb c) espacos.

(** [s.replace(old, new)] for a non-empty [old]: occurrences are taken
    left to right and do not overlap.  [skip] counts the characters of an
    occurrence that are still to be dropped. *)
Fixpoint replace_from (skip : nat) (old new s : string) : string :=
  match s with
  | EmptyString => EmptyString
  | String a s' =>
      match skip with
      | S k => replace_from k old new s'
      | O =>
          if String.prefix old s
          then new +:+ replace_from (Nat.pred (String.length old)) old new s'
          else String a (replace_from 0 old new s')
      end
  end.

Definition replace (old new s : string) : string := replace_from 0 old new s.

(** [s.lstrip()]: the leading whitespace characters are dropped, whether
    they take one, two or three bytes. *)
Fixpoint lstrip (s : string) : string :=
  match s with
  | EmptyString => EmptyString
  | String a s1 =>
      if py_isspace (String a "") then lstrip s1
      else
        match s1 with
        | EmptyString => s
        | String b s2 =>
            if py_isspace (String a (String b "")) then lstrip s2
            else
              match s2 with
              | EmptyString => s
              | String c s3 =>
                  if py_isspace (String a (String b (String c ""))) then lstrip s3
                  else s
              end
        end
  end.

(** [s.rstrip()]: the string is cut where what follows is whitespace
    only. *)
Fixpoint rstrip (s : string) : string :=
  match s with
  | EmptyString => EmptyString
  | String a s' =>
      if String.eqb (lstrip s) "" then EmptyString else String a (rstrip s')
  end.

Definition strip (s : string) : string := rstrip (lstrip s).

(** [needle in s] on strings. *)
Definition substring_of (needle s : string) : bool :=
  match String.index 0 needle s with
  | Some _ => true
  | None => false
  end.

(** ** Tables, messages, reports *)

(** A DataFrame with a RangeIndex: the set of column labels and one dict
    per row.  A row need not fill every column; the missing cells read as
    [NaN]. *)
Record DataFrame : Type := mkDF {
  columns : gset string;
  rows : list (gmap string pyval)
}.

(** [pd.DataFrame(records)] *)
Definition from_records (records : list (gmap string pyval)) : DataFrame :=
  {| columns := ⋃ (dom <$> records); rows := records |}.

(** [df[c] = v] for a scalar [v] *)
Definition set_column (c : string) (v : pyval) (df : DataFrame) : DataFrame :=
  {| columns := {[c]} ∪ columns df; rows := (λ r, <[c:=v]> r) <$> rows df |}.

(** [df.at[i, c] = v] for a row label [i] of the frame.  On a label the
    frame does not have pandas would add a row; [send_emails] only uses
    labels handed out by [iterrows], and the model leaves the frame as it
    is there. *)
Definition set_at (i : nat) (c : string) (v : pyval) (df : DataFrame) : DataFrame :=
  {| columns := {[c]} ∪ columns df; rows := alter (λ r, <[c:=v]> r) i (rows df) |}.

(** [df.empty] *)
Definition df_empty (df : DataFrame) : bool :=
  match rows df with [] => true | _ => false end.

(** The value of cell [c] of row [i], if the frame has that row and column. *)
Definition cell_at (df : DataFrame) (i : nat) (c : string) : option pyval :=
  if decide (c ∈ columns df) then (λ r, default NaN (r !! c)) <$> rows df !! i else None.

(** An [EmailMessage]: its headers and its body. *)
Record Message : Type := mkMessage {
  headers : gmap string string;
  content : option string
}.

Definition EmailMessage : Message := {| headers := ∅; content := None |}.

Record Report : Type := mkReport {
  lines : list string;
  total_consultas_sucesso : nat;
  total_consultas_erro : nat;
  total_emails_sucesso : nat;
  total_emails_erro : nat
}.

(** ** Collaborators *)

Record Response : Type := mkResponse {
  status_code : Z;
  json_body : option pyval   (* [None]: the body is not JSON *)
}.

Inductive smtp_call : Type :=
| Connect (host : string) (port : Z)
| StartTls
| Login (user password : string)
| SendMessage (m : Message)
| Quit.

Inductive exn : Type :=
| RequestException
| HTTPError
| JSONDecodeError
| TypeError
| AttributeError
| ValueError
| KeyError (key : string)
| UnboundLocalError (name : string)
| SMTPException
| UnicodeEncodeError
| FileNotFoundError
| OSError.

Inductive res (A : Type) : Type :=
| Ok (a : A)
| Raise (e : exn).
Arguments Ok {A} a.
Arguments Raise {A} e.

(** Every collaborator answers from, and may change, the outside world.
    [http_get] is [requests.get(link, timeout=10)], [None] when the call
    itself raises; [smtp_do] answers [false] when the call raises;
    [py_str] is the builtin [str]; [header_ok name value] tells whether
    [EmailMessage] accepts the header, [content_ok corpo] whether it can
    encode the body. *)
Class Externals (World : Type) : Type := {
  http_get : string → World → option Response * World;
  csv_read : string → World → res DataFrame * World;
  text_read : string → World → res string * World;
  smtp_do : smtp_call → World → bool * World;
  excel_write : string → DataFrame → World → bool * World;
  pdf_write : string → Report → World → bool * World;
  py_str : pyval → string;
  header_ok : string → string → bool;
  content_ok : string → bool
}.

Inductive level : Type := INFO | ERROR.

Inductive event : Type :=
| EvLog (l : level)
| EvHttpGet (link : string)
| EvReadCsv (file : string)
| EvReadText (file : string)
| EvSmtp (index : nat) (c : smtp_call)
| EvToExcel (file : string) (df : DataFrame)
| EvPdf (file : string) (r : Report).

(** ** The interpreter state and its monad *)

Section Script.
Context {World : Type} `{!Externals World}.

(** [frame] is the DataFrame object that [main] hands to [send_emails] and
    to the report: it is mutated in place, so it lives in the state.
    [msg] is the local variable [msg] of [send_emails], [None] while it is
    unbound. *)
Record State : Type := mkState {
  world : World;
  trace : list event;
  frame : DataFrame;
  msg : option Message
}.

Definition M (A : Type) : Type := State → res A * State.

Definition ret {A : Type} (a : A) : M A := λ st, (Ok a, st).

Definition raise {A : Type} (e : exn) : M A := λ st, (Raise e, st).

Definition bind {A B : Type} (m : M A) (k : A → M B) : M B :=
  λ st,
    match m st with
    | (Ok a, st') => k a st'
    | (Raise e, st') => (Raise e, st')
    end.

(** [try: body / except Exception as e: handler e] *)
Definition try_except {A : Type} (body : M A) (handler : exn → M A) : M A :=
  λ st,
    match body st with
    | (Ok a, st') => (Ok a, st')
    | (Raise e, st') => handler e st'
    end.

(** [try: body / finally: final]: [final] runs on both exits, and an
    exception of [final] replaces the outcome of [body]. *)
Definition try_finally {A : Type} (body : M A) (final : M unit) : M A :=
  λ st,
    match body st with
    | (r, st') =>
        match final st' with
        | (Ok _, st'') => (r, st'')
        | (Raise e, st'') => (Raise e, st'')
        end
    end.

Notation "x ← m ; k" := (bind m (λ x, k))
  (at level 20, m at level 100, k at level 200, only parsing).
Notation "m ;; k" := (bind m (λ _, k))
  (at level 100, k at level 200, right associativity, only parsing).

Definition emit (e : event) : M unit :=
  λ st, (Ok tt, {| world := world st; trace := trace st ++ [e];
                   frame := frame st; msg := msg st |}).

(** A call to a collaborator: recorded, then answered by the world. *)
Definition call {A : Type} (e : event) (f : World → A * World) : M A :=
  λ st,
    let '(a, w) := f (world st) in
    (Ok a, {| world := w; trace := trace st ++ [e];
              frame := frame st; msg := msg st |}).

Definition log (l : level) : M unit := emit (EvLog l).

Definition get_frame : M DataFrame := λ st, (Ok (frame st), st).

Definition set_frame (df : DataFrame) : M unit :=
  λ st, (Ok tt, {| world := world st; trace := trace st;
                   frame := df; msg := msg st |}).

Definition get_msg : M (option Message) := λ st, (Ok (msg st), st).

Definition set_msg (m : option Message) : M unit :=
  λ st, (Ok tt, {| world := world st; trace := trace st;
                   frame := frame st; msg := m |}).

(** ** Operations on Python values that can raise *)

(** [k in v] *)
Definition py_contains (k : string) (v : pyval) : M bool :=
  match v with
  | PDict d => ret (match d !! k with Some _ => true | None => false end)
  | PList l => ret (existsb (λ x, py_eq_str x k) l)
  | PStr s => ret (substring_of k s)
  | _ => raise TypeError
  end.

(** [v.get(k)] *)
Definition py_get (v : pyval) (k : string) : M pyval :=
  match v with
  | PDict d => ret (default PNone (d !! k))
  | _ => raise AttributeError
  end.

(** [v[k]] for a string [k] *)
Definition py_getitem (v : pyval) (k : string) : M pyval :=
  match v with
  | PDict d =>
      match d !! k with
      | Some x => ret x
      | None => raise (KeyError k)
      end
  | _ => raise TypeError
  end.

(** [v[k] = x] for a string [k]; the updated object is returned. *)
Definition py_setitem (v : pyval) (k : string) (x : pyval) : M pyval :=
  match v with
  | PDict d => ret (PDict (<[k:=x]> d))
  | _ => raise TypeError
  end.

(** ** CEPService *)

Definition requests_get (link : string) : M Response :=
  r ← call (EvHttpGet link) (http_get link);
  match r with
  | Some requisicao => ret requisicao
  | None => raise RequestException
  end.

Definition raise_for_status (requisicao : Response) : M unit :=
  if (400 <=? status_code requisicao) && (status_code requisicao <? 600)
  then raise HTTPError
  else ret tt.

Definition json (requisicao : Response) : M pyval :=
  match json_body requisicao with
  | Some v => ret v
  | None => raise JSONDecodeError
  end.

(** [{'cep': cep, 'status': 'Erro'}] *)
Definition erro_record (cep : string) : gmap string pyval :=
  <["status" := PStr "Erro"]> (<["cep" := PStr cep]> ∅).

Definition _realizar_consulta (link cep : string) : M pyval :=
  try_except
    (requisicao ← requests_get link;
     raise_for_status requisicao;;
     resposta ← json requisicao;
     erro ← py_contains "erro" resposta;
     nao_encontrado ←
       (if erro : bool then ret true
        else (v ← py_get resposta "cep"; ret (negb (truthy v))));
     if nao_encontrado : bool then raise ValueError
     else py_setitem resposta "status" (PStr "Sucesso"))
    (λ e, log ERROR;; ret (PDict (erro_record cep))).

Definition viacep_link (cep : string) : string :=
  "https://viacep.com.br/ws/" +:+ cep +:+ "/json/".

Definition opencep_link (cep : string) : string :=
  "https://api.opencep.com/v1/" +:+ cep.

Definition consultar_cep_viacep (cep : string) : M pyval :=
  _realizar_consulta (viacep_link cep) cep.

Definition consultar_cep_opencep (cep : string) : M pyval :=
  _realizar_consulta (opencep_link cep) cep.

(** [cep.replace("-", "").strip()] *)
Definition normalizar (cep : string) : string := strip (replace "-" "" cep).

Definition consultar_cep (cep : string) : M pyval :=
  let cep := normalizar cep in
  log INFO;;
  resposta ← consultar_cep_viacep cep;
  status ← py_getitem resposta "status";
  if py_eq_str status "Erro"
  then (log INFO;; consultar_cep_opencep cep)
  else ret resposta.

(** ** CEPProcessor *)

Definition read_csv (input_file : string) : M DataFrame :=
  r ← call (EvReadCsv input_file) (csv_read input_file);
  match r with
  | Ok df => ret df
  | Raise e => raise e
  end.

(** [df.to_excel(file, index=False)] *)
Definition to_excel (file : string) (df : DataFrame) : M unit :=
  ok ← call (EvToExcel file df) (excel_write file df);
  if ok : bool then ret tt else raise OSError.

(** [df[c]]: the cells of a column, top to bottom. *)
Definition column (df : DataFrame) (c : string) : M (list pyval) :=
  if decide (c ∈ columns df)
  then ret ((λ r, default NaN (r !! c)) <$> rows df)
  else raise (KeyError c).

(** The loop [for cep in df['CEP']] with its accumulator. *)
Fixpoint consultar_todos (ceps : list pyval) (dados_completos : list pyval)
  : M (list pyval) :=
  match ceps with
  | [] => ret dados_completos
  | cep :: ceps' =>
      log INFO;;
      dados ← consultar_cep (py_str cep);
      consultar_todos ceps' (dados_completos ++ [dados])
  end.

(** [pd.DataFrame(dados_completos)] on a list of dicts.  [consultar_cep]
    only returns dicts, so the other branch is not reached from
    [process]. *)
Fixpoint records_of (dados : list pyval) : M (list (gmap string pyval)) :=
  match dados with
  | [] => ret []
  | PDict d :: dados' => ds ← records_of dados'; ret (d :: ds)
  | _ :: _ => raise TypeError
  end.

(** The three [except] clauses of [process] ([FileNotFoundError],
    [ValueError], [Exception]) differ in the text they log only: each
    logs an error and lets the method return [None]. *)
Definition process (input_file output_file : string) : M (option DataFrame) :=
  try_finally
    (try_except
       (df ← read_csv input_file;
        (if decide ("CEP" ∈ columns df) then ret tt else raise ValueError);;
        ceps ← column df "CEP";
        dados_completos ← consultar_todos ceps [];
        registros ← records_of dados_completos;
        let df_resultados := set_column "EMAIL" (PStr "") (from_records registros) in
        to_excel output_file df_resultados;;
        log INFO;;
        ret (Some df_resultados))
       (λ e, log ERROR;; ret None))
    (log INFO).

(** ** EmailSender *)

(** [cep[c]] on a row handed out by [iterrows]: the labels of the Series
    are the columns of the frame. *)
Definition series_get (cols : gset string) (cep : gmap string pyval) (c : string)
  : M pyval :=
  if decide (c ∈ cols) then ret (default NaN (cep !! c)) else raise (KeyError c).

(** [dados_ceps.at[index, c] = v] *)
Definition at_set (index : nat) (c : string) (v : pyval) : M unit :=
  df ← get_frame;
  set_frame (set_at index c v df).

(** The chain of [replace] calls that fills the template. *)
Definition personalizar (corpo_template : string) (cols : gset string)
    (cep : gmap string pyval) : M string :=
  v ← series_get cols cep "cep";
  let corpo := replace "${cep}" (py_str v) corpo_template in
  v ← series_get cols cep "logradouro";
  let corpo := replace "${logradouro}" (py_str v) corpo in
  v ← series_get cols cep "bairro";
  let corpo := replace "${bairro}" (py_str v) corpo in
  v ← series_get cols cep "localidade";
  let corpo := replace "${cidade}" (py_str v) corpo in
  v ← series_get cols cep "uf";
  ret (replace "${estado}" (py_str v) corpo).

(** Reading the variable [msg]. *)
Definition the_msg : M Message :=
  m ← get_msg;
  match m with
  | Some m => ret m
  | None => raise (UnboundLocalError "msg")
  end.

(** [msg[name] = value] *)
Definition set_header (name value : string) : M unit :=
  m ← the_msg;
  if header_ok name value
  then set_msg (Some {| headers := <[name:=value]> (headers m); content := content m |})
  else raise ValueError.

(** [msg.set_content(corpo, subtype='html')]: the body is encoded when
    it is set, and a body that cannot be encoded is refused. *)
Definition set_content (corpo : string) : M unit :=
  m ← the_msg;
  if content_ok corpo
  then set_msg (Some {| headers := headers m; content := Some corpo |})
  else raise UnicodeEncodeError.

Definition smtp (index : nat) (c : smtp_call) : M unit :=
  ok ← call (EvSmtp index c) (smtp_do c);
  if ok : bool then ret tt else raise SMTPException.

(** [with smtplib.SMTP(host, port) as smtp: body]: the constructor
    connects; leaving the block, normally or not, sends QUIT. *)
Definition with_SMTP (index : nat) (host : string) (port : Z) (body : M unit)
  : M unit :=
  smtp index (Connect host port);;
  try_finally body (smtp index Quit).

Definition destinatario : string := "seu_gmail_que_vai_receber_aqui@hotmail.com".

(** The [with] block: one session per row. *)
Definition entregar (email_senha email_de : string) (index : nat) : M unit :=
  with_SMTP index "smtp.gmail.com" 587
    (smtp index StartTls;;
     smtp index (Login email_de email_senha);;
     m ← the_msg;
     smtp index (SendMessage m)).

(** The [try] block of the loop, from the first header on: [msg] is
    bound when it starts. *)
Definition despachar (email_senha email_de corpo : string)
    (cols : gset string) (index : nat) (cep : gmap string pyval) : M unit :=
  set_header "From" email_de;;
  set_header "To" destinatario;;
  v ← series_get cols cep "cep";
  set_header "Subject" ("Informações para o CEP " +:+ py_str v);;
  set_content corpo;;
  entregar email_senha email_de index;;
  (* success_message reads msg['To'] and cep['cep'] *)
  the_msg;;
  series_get cols cep "cep";;
  log INFO;;
  at_set index "EMAIL" (PStr "Sucesso").

(** The [try] block of the loop. *)
Definition tentativa (email_senha corpo_template email_de : string)
    (cols : gset string) (index : nat) (cep : gmap string pyval) : M unit :=
  corpo ← personalizar corpo_template cols cep;
  set_msg (Some EmailMessage);;
  despachar email_senha email_de corpo cols index cep.

(** The [except Exception as e] block: error_message reads [msg['To']]
    and [cep['cep']] before anything is recorded. *)
Definition falha (cols : gset string) (index : nat) (cep : gmap string pyval)
    (e : exn) : M unit :=
  the_msg;;
  series_get cols cep "cep";;
  log ERROR;;
  at_set index "EMAIL" (PStr "Erro").

(** The body of the loop of [send_emails], for the row [cep] at label
    [index]. *)
Definition enviar (email_senha corpo_template email_de : string)
    (cols : gset string) (index : nat) (cep : gmap string pyval) : M unit :=
  status ← series_get cols cep "status";
  if py_eq_str status "Sucesso" then
    try_finally
      (try_except
         (tentativa email_senha corpo_template email_de cols index cep)
         (falha cols index cep))
      (log INFO)
  else
    (* error_message reads cep['cep'] *)
    series_get cols cep "cep";;
    log INFO;;
    at_set index "EMAIL" (PStr "Erro").

(** [for index, cep in dados_ceps.iterrows()], over the rows the iterator
    took from the frame when the loop started. *)
Fixpoint para_cada (email_senha corpo_template email_de : string)
    (cols : gset string) (index : nat) (linhas : list (gmap string pyval))
  : M unit :=
  match linhas with
  | [] => ret tt
  | cep :: linhas' =>
      enviar email_senha corpo_template email_de cols index cep;;
      para_cada email_senha corpo_template email_de cols (S index) linhas'
  end.

(** [dados_ceps] is the frame of the state; [msg] starts unbound. *)
Definition send_emails (email_senha corpo_template email_de output_file : string)
  : M unit :=
  set_msg None;;
  dados_ceps ← get_frame;
  para_cada email_senha corpo_template email_de
    (columns dados_ceps) 0 (rows dados_ceps);;
  dados_ceps ← get_frame;
  to_excel output_file dados_ceps.

(** ** The report *)

(** [(serie == s).sum()] *)
Definition conta (serie : list pyval) (s : string) : nat :=
  length (filter (λ v, py_eq_str v s = true) serie).

Fixpoint linhas_relatorio (cols : gset string) (linhas : list (gmap string pyval))
  : M (list string) :=
  match linhas with
  | [] => ret []
  | row :: linhas' =>
      c ← series_get cols row "cep";
      s ← series_get cols row "status";
      e ← series_get cols row "EMAIL";
      ls ← linhas_relatorio cols linhas';
      ret (("CEP: " +:+ py_str c +:+ ", STATUS: " +:+ py_str s
              +:+ ", EMAIL: " +:+ py_str e) :: ls)
  end.

(** The summary [gerar_relatorio_pdf] prints, before it is written. *)
Definition relatorio (dados_ceps : DataFrame) : M Report :=
  ls ← linhas_relatorio (columns dados_ceps) (rows dados_ceps);
  status ← column dados_ceps "status";
  let consultas_sucesso := conta status "Sucesso" in
  status ← column dados_ceps "status";
  let consultas_erro := conta status "Erro" in
  email ← column dados_ceps "EMAIL";
  let emails_sucesso := conta email "Sucesso" in
  email ← column dados_ceps "EMAIL";
  let emails_erro := conta email "Erro" in
  ret {| lines := ls;
         total_consultas_sucesso := consultas_sucesso;
         total_consultas_erro := consultas_erro;
         total_emails_sucesso := emails_sucesso;
         total_emails_erro := emails_erro |}.

Definition gerar_relatorio_pdf (output_pdf : string) : M unit :=
  dados_ceps ← get_frame;
  r ← relatorio dados_ceps;
  ok ← call (EvPdf output_pdf r) (pdf_write output_pdf r);
  if ok : bool then ret tt else raise OSError.

(** ** main *)

Definition input_file : string := "ceps_lista_30.csv".
Definition output_file : string := "dados_ceps_completos.xlsx".
Definition pass_file : string := "pass.txt".
Definition email_template : string := "email_modelo.html".
Definition output_pdf : string := "relatorio.pdf".
Definition email_de : string := "seu_GMAIL_aqui@gmail.com".

(** [open(file).read()] *)
Definition read_text (file : string) : M string :=
  r ← call (EvReadText file) (text_read file);
  match r with
  | Ok s => ret s
  | Raise e => raise e
  end.

(** [result_df] is [None] when [process] failed, and [None.empty] raises.
    From [set_frame] on, [result_df] is the frame of the state. *)
Definition main : M unit :=
  try_except
    (result_df ← process input_file output_file;
     match result_df with
     | None => raise AttributeError
     | Some result_df =>
         if df_empty result_df then log INFO
         else
           set_frame result_df;;
           senha ← read_text pass_file;
           let email_senha := strip senha in
           corpo_template ← read_text email_template;
           send_emails email_senha corpo_template email_de output_file;;
           gerar_relatorio_pdf output_pdf;;
           log INFO
     end)
    (λ e, log ERROR;; raise e).

End Script.

Arguments State World : clear implicits.
Arguments M World A : clear implicits.

(** ** Vocabulary of the statements *)

(** What [_realizar_consulta] takes for an answer: the call returned, the
    status is not an error status, the body is a JSON object without the
    member [erro] and with a member [cep] that is not falsy. *)
Definition corpo_aceito (r : option Response) : option (gmap string pyval) :=
  match r with
  | None => None
  | Some requisicao =>
      if (400 <=? status_code requisicao) && (status_code requisicao <? 600)
      then None
      else
        match json_body requisicao with
        | Some (PDict d) =>
            match d !! "erro", d !! "cep" with
            | None, Some v => if truthy v then Some d else None
            | _, _ => None
            end
        | _ => None
        end
  end.

(** The record a provider's answer [d] becomes. *)
Definition sucesso (d : gmap string pyval) : pyval :=
  PDict (<["status" := PStr "Sucesso"]> d).

(** The links requested, oldest first. *)
Definition http_calls (evs : list event) : list string :=
  omap (λ e, match e with EvHttpGet link => Some link | _ => None end) evs.

(** The SMTP calls made for the row at label [index]. *)
Definition smtp_calls (index : nat) (evs : list event) : list smtp_call :=
  omap (λ e, match e with
             | EvSmtp i c => if decide (i = index) then Some c else None
             | _ => None
             end) evs.

(** The files written (spreadsheet or PDF). *)
Definition arquivos_escritos (evs : list event) : list string :=
  omap (λ e, match e with
             | EvToExcel f _ => Some f
             | EvPdf f _ => Some f
             | _ => None
             end) evs.

(** The address columns [send_emails] reads to fill the template. *)
Definition colunas_endereco : list string :=
  ["logradouro"; "bairro"; "localidade"; "uf"].

(** [cep['status'] == 'Sucesso'] on a row. *)
Definition status_sucesso (cep : gmap string pyval) : bool :=
  py_eq_str (default NaN (cep !! "status")) "Sucesso".

(** A final value of the column [EMAIL]. *)
Definition email_final (v : option pyval) : Prop :=
  v = Some (PStr "Sucesso") ∨ v = Some (PStr "Erro").

(** The frame has every column the loop of [send_emails] reads. *)
Definition colunas_completas (cols : gset string) : Prop :=
  "status" ∈ cols ∧ "cep" ∈ cols ∧ ∀ c, c ∈ colunas_endereco → c ∈ cols.

(** [df'] is [df] but for the cells of column [EMAIL] in the rows that
    [toca] allows. *)
Definition so_email (toca : nat → Prop) (df df' : DataFrame) : Prop :=
  columns df ⊆ columns df'
  ∧ columns df' ⊆ {["EMAIL"]} ∪ columns df
  ∧ length (rows df') = length (rows df)
  ∧ ∀ j,
      (¬ toca j → rows df' !! j = rows df !! j)
      ∧ ∀ c, c ≠ "EMAIL" →
             (rows df' !! j) ≫= (λ r, r !! c) = (rows df !! j) ≫= (λ r, r !! c).

(** An event the notifier may leave: a log line, a write of the
    spreadsheet, or an SMTP call for a row that [envia] allows. *)
Definition evento_de_envio (envia : nat → Prop) (e : event) : Prop :=
  match e with
  | EvLog _ => True
  | EvToExcel _ _ => True
  | EvSmtp i _ => envia i
  | _ => False
  end.

(** A record as [consultar_cep] returns it. *)
Definition registro_ok (d : gmap string pyval) : Prop :=
  (d !! "status" = Some (PStr "Sucesso") ∨ d !! "status" = Some (PStr "Erro"))
  ∧ is_Some (d !! "cep").

(** Cell [c] of the row holds the string [s]. *)
Definition tem_valor (c s : string) (r : gmap string pyval) : Prop :=
  r !! c = Some (PStr s).

#[export] Instance tem_valor_dec c s r : Decision (tem_valor c s r).
Proof.
  unfold tem_valor. destruct (r !! c) as [[| | | |t| |]|];
    try (right; congruence).
  destruct (decide (t = s)) as [->|Hne]; [by left|right; congruence].
Defined.

(** The subject of the message for a row. *)
Definition assunto {World : Type} `{!Externals World} (cep : gmap string pyval)
  : string :=
  "Informações para o CEP " +:+ py_str (default NaN (cep !! "cep")).

(** The body [send_emails] renders for a row. *)
Definition corpo_de {World : Type} `{!Externals World}
    (corpo_template : string) (cep : gmap string pyval) : string :=
  let celula c := py_str (default NaN (cep !! c)) in
  replace "${estado}" (celula "uf")
    (replace "${cidade}" (celula "localidade")
       (replace "${bairro}" (celula "bairro")
          (replace "${logradouro}" (celula "logradouro")
             (replace "${cep}" (celula "cep") corpo_template)))).

(** The message [send_emails] builds for a row. *)
Definition mensagem {World : Type} `{!Externals World}
    (email_de corpo_template : string) (cep : gmap string pyval) : Message :=
  {| headers := <["Subject" := assunto cep]>
                  (<["To" := destinatario]> (<["From" := email_de]> ∅));
     content := Some (corpo_de corpo_template cep) |}.

(** [EmailMessage] takes the three headers and the body of that message. *)
Definition mensagem_aceita {World : Type} `{!Externals World}
    (email_de corpo_template : string) (cep : gmap string pyval) : bool :=
  header_ok "From" email_de
  && header_ok "To" destinatario
  && header_ok "Subject" (assunto cep)
  && content_ok (corpo_de corpo_template cep).

(** What the relay answers to [calls], made one after the other from the
    world [w], and the world they leave. *)
Fixpoint responde {World : Type} `{!Externals World}
    (w : World) (calls : list smtp_call) : list bool * World :=
  match calls with
  | [] => ([], w)
  | c :: calls' =>
      let '(ok, w1) := smtp_do c w in
      let '(oks, w2) := responde w1 calls' in
      (ok :: oks, w2)
  end.

(** The dialogues a session that carries the message [m] can be: each
    call with the answer it got.  A call that fails ends the session, with
    QUIT once the connection was made; [q] is the answer to QUIT. *)
Inductive sessao (email_senha email_de : string) (m : Message)
  : list (smtp_call * bool) → Prop :=
| sessao_sem_conexao :
    sessao email_senha email_de m [(Connect "smtp.gmail.com" 587, false)]
| sessao_sem_tls q :
    sessao email_senha email_de m
      [(Connect "smtp.gmail.com" 587, true); (StartTls, false); (Quit, q)]
| sessao_sem_login q :
    sessao email_senha email_de m
      [(Connect "smtp.gmail.com" 587, true); (StartTls, true);
       (Login email_de email_senha, false); (Quit, q)]
| sessao_sem_envio q :
    sessao email_senha email_de m
      [(Connect "smtp.gmail.com" 587, true); (StartTls, true);
       (Login email_de email_senha, true); (SendMessage m, false); (Quit, q)]
| sessao_inteira q :
    sessao email_senha email_de m
      [(Connect "smtp.gmail.com" 587, true); (StartTls, true);
       (Login email_de email_senha, true); (SendMessage m, true); (Quit, q)].

(** The relay said yes to the five calls of a session. *)
Definition completa (d : list (smtp_call * bool)) : bool :=
  bool_decide (d.*2 = [true; true; true; true; true]).

(** Row [j] of [df] exists and its status is ['Sucesso']. *)
Definition linha_sucesso (df : DataFrame) (j : nat) : Prop :=
  ∃ cep, rows df !! j = Some cep ∧ status_sucesso cep = true.

Section Logica.
Context {World : Type} `{!Externals World}.

(** From a state where [P] holds, [m] ends, with result [r], in a state
    where [Q r] holds. *)
Definition hoare {A : Type} (P : State World → Prop) (m : M World A)
    (Q : res A → State World → Prop) : Prop :=
  ∀ st, P st → Q (m st).1 (m st).2.

(** [I] holds after [m] if it held before, whatever [m] returns. *)
Definition inv {A : Type} (I : State World → Prop) (m : M World A) : Prop :=
  hoare I m (λ _, I).

(** What a stretch of the notifier may have done between [st0] and [st]:
    added events of [evento_de_envio], and changed [EMAIL] cells. *)
Definition pegada (toca envia : nat → Prop) (st0 st : State World) : Prop :=
  (∃ evs, trace st = trace st0 ++ evs ∧ Forall (evento_de_envio envia) evs)
  ∧ so_email toca (frame st0) (frame st).

End Logica.

(** ** A scripted world, for concrete runs *)

(** HTTP answers are served from a list, one per call; the mail relay is
    up or down; the input file holds [csv]. *)
Record Roteiro : Type := mkRoteiro {
  respostas : list (option Response);
  csv : res DataFrame;
  smtp_ativo : bool
}.

#[export] Instance roteiro_externals : Externals Roteiro := {|
  http_get := λ _ w,
    (mjoin (head (respostas w)),
     {| respostas := tail (respostas w); csv := csv w; smtp_ativo := smtp_ativo w |});
  csv_read := λ _ w, (csv w, w);
  text_read := λ file w,
    (Ok (if String.eqb file "pass.txt" then " senha de app "
         else "<p>${cep}: ${logradouro}, ${bairro}, ${cidade}/${estado}</p>"), w);
  smtp_do := λ _ w, (smtp_ativo w, w);
  excel_write := λ _ _ w, (true, w);
  pdf_write := λ _ _ w, (true, w);
  py_str := λ v, match v with PStr s => s | _ => "?" end;
  header_ok := λ _ _, true;
  content_ok := λ _, true
|}.

Definition estado_inicial (w : Roteiro) : State Roteiro :=
  {| world := w; trace := []; frame := from_records []; msg := None |}.

(** A full answer, and one that only gives the code back. *)
Definition corpo_completo : gmap string pyval :=
  <["cep" := PStr "01001-000"]>
    (<["logradouro" := PStr "Praça da Sé"]>
       (<["bairro" := PStr "Sé"]>
          (<["localidade" := PStr "São Paulo"]>
             (<["uf" := PStr "SP"]> ∅)))).

Definition corpo_so_cep : gmap string pyval := <["cep" := PStr "01001-000"]> ∅.

Definition resposta_200 (corpo : gmap string pyval) : option Response :=
  Some {| status_code := 200; json_body := Some (PDict corpo) |}.

(** Two codes to look up; the second has no answer from either provider. *)
Definition entrada : DataFrame :=
  {| columns := {["CEP"]};
     rows := [<["CEP" := PStr "01001-000"]> ∅; <["CEP" := PStr "00000-000"]> ∅] |}.

Definition entrada_sem_cep : DataFrame :=
  {| columns := {["codigo"]}; rows := [<["codigo" := PStr "01001-000"]> ∅] |}.

Definition mundo_completo : Roteiro :=
  {| respostas := [resposta_200 corpo_completo]; csv := Ok entrada; smtp_ativo := true |}.

Definition mundo_so_cep : Roteiro :=
  {| respostas := [resposta_200 corpo_so_cep]; csv := Ok entrada; smtp_ativo := true |}.

Definition mundo_sem_coluna : Roteiro :=
  {| respostas := [resposta_200 corpo_completo]; csv := Ok entrada_sem_cep;
     smtp_ativo := true |}.

(** The state a complete run of [main] leaves, and the same with the
    mail relay gone. *)
Definition apos_main : State Roteiro := (main (estado_inicial mundo_completo)).2.

Definition sem_relay (st : State Roteiro) : State Roteiro :=
  {| world := {| respostas := respostas (world st); csv := csv (world st);
                 smtp_ativo := false |};
     trace := trace st; frame := frame st; msg := msg st |}.

(** The frame [process] returns in the first world, and the state it
    leaves. *)
Definition lote_processado : DataFrame :=
  match (process input_file output_file (estado_inicial mundo_completo)).1 with
  | Ok (Some df) => df
  | _ => from_records []
  end.

Definition apos_process : State Roteiro :=
  (process input_file output_file (estado_inicial mundo_completo)).2.

(** The state in which [main] calls [send_emails] there, and the one
    [send_emails] leaves. *)
Definition antes_envio : State Roteiro :=
  {| world := world apos_process; trace := trace apos_process;
     frame := lote_processado; msg := msg apos_process |}.

Definition apos_envio : State Roteiro :=
  (send_emails "senha de app" "<p>${cep}</p>" email_de output_file antes_envio).2.

(** The same in the second world, where the answer has no address. *)
Definition lote_so_cep : DataFrame :=
  match (process input_file output_file (estado_inicial mundo_so_cep)).1 with
  | Ok (Some df) => df
  | _ => from_records []
  end.

Definition apos_process_so_cep : State Roteiro :=
  (process input_file output_file (estado_inicial mundo_so_cep)).2.

Definition antes_envio_so_cep : State Roteiro :=
  {| world := world apos_process_so_cep; trace := trace apos_process_so_cep;
     frame := lote_so_cep; msg := msg apos_process_so_cep |}.

(** The rows of the batch after a complete run. *)
Definition linha_ok : gmap string pyval :=
  <["EMAIL" := PStr "Sucesso"]> (<["status" := PStr "Sucesso"]> corpo_completo).


Definition linha_erro : gmap string pyval :=
  <["EMAIL" := PStr "Erro"]>
    (<["status" := PStr "Erro"]> (<["cep" := PStr "00000000"]> ∅)).

(** ** Vocabulary of the further properties *)

(** The hyphen, character 45. *)
Definition hifen : Ascii.ascii :=
  Ascii.Ascii true false true true false true false false.

(** The character [a] occurs in [s]. *)
Fixpoint ocorre (a : Ascii.ascii) (s : string) : bool :=
  match s with
  | EmptyString => false
  | String b s' => if Ascii.eqb a b then true else ocorre a s'
  end.

(** [s] without the character [a]. *)
Fixpoint sem (a : Ascii.ascii) (s : string) : string :=
  match s with
  | EmptyString => EmptyString
  | String b s' => if Ascii.eqb a b then sem a s' else String b (sem a s')
  end.

(** A string made of whitespace characters only. *)
Inductive brancos : string → Prop :=
| brancos_vazio : brancos ""
| brancos_mais e w : e ∈ espacos → brancos w → brancos (e +:+ w).

(** [s] starts with a whitespace character. *)
Definition comeca_em_branco (s : string) : bool :=
  match s with
  | EmptyString => false
  | String a s1 =>
      py_isspace (String a "")
      || match s1 with
         | EmptyString => false
         | String b s2 =>
             py_isspace (String a (String b ""))
             || match s2 with
                | EmptyString => false
                | String c _ => py_isspace (String a (String b (String c "")))
                end
         end
  end.

(** An event of the lookup stage: a log line or a request. *)
Definition evento_de_consulta (e : event) : Prop :=
  match e with
  | EvLog _ => True
  | EvHttpGet _ => True
  | _ => False
  end.

(** The frame [process] builds from the records of a batch. *)
Definition lote_de (registros : list (gmap string pyval)) : DataFrame :=
  set_column "EMAIL" (PStr "") (from_records registros).

(** A scripted world in which files can be missing or locked. *)
Record Avariado : Type := mkAvariado {
  roteiro : Roteiro;
  sem_entrada : bool;        (* the input file does not exist *)
  sem_senha : bool;          (* [pass.txt] does not exist *)
  planilha_bloqueada : bool  (* the spreadsheet cannot be written *)
}.

#[export] Instance avariado_externals : Externals Avariado | 100 := {|
  http_get := λ _ w,
    (mjoin (head (respostas (roteiro w))),
     {| roteiro := {| respostas := tail (respostas (roteiro w));
                      csv := csv (roteiro w);
                      smtp_ativo := smtp_ativo (roteiro w) |};
        sem_entrada := sem_entrada w; sem_senha := sem_senha w;
        planilha_bloqueada := planilha_bloqueada w |});
  csv_read := λ _ w,
    (if sem_entrada w then Raise FileNotFoundError else csv (roteiro w), w);
  text_read := λ file w,
    (if sem_senha w && String.eqb file "pass.txt" then Raise FileNotFoundError
     else Ok "<p>${cep}</p>", w);
  smtp_do := λ _ w, (smtp_ativo (roteiro w), w);
  excel_write := λ _ _ w, (negb (planilha_bloqueada w), w);
  pdf_write := λ _ _ w, (true, w);
  py_str := λ v, match v with PStr s => s | _ => "?" end;
  header_ok := λ _ _, true;
  content_ok := λ _, true
|}.

Definition estado_avariado (w : Avariado) : State Avariado :=
  {| world := w; trace := []; frame := from_records []; msg := None |}.

(** Between [st0] and [st], every ['Sucesso'] in the column [EMAIL] is
    backed by a message handed to the relay for that row, and the row is
    one [resolvida] holds of. *)
Definition envio_registrado {World : Type} (resolvida : nat → Prop)
    (st0 st : State World) : Prop :=
  ∃ evs,
    trace st = trace st0 ++ evs
    ∧ ∀ i r, rows (frame st) !! i = Some r →
             r !! "EMAIL" = Some (PStr "Sucesso") →
             resolvida i ∧ ∃ m, EvSmtp i (SendMessage m) ∈ evs.

(** Since [st0], a message was handed to the relay for the row [index]. *)
Definition mensagem_entregue {World : Type} (index : nat)
    (st0 st : State World) : Prop :=
  ∃ evs m, trace st = trace st0 ++ evs ∧ EvSmtp index (SendMessage m) ∈ evs.

(** An input with the column and no row, and its world. *)
Definition entrada_vazia : DataFrame := {| columns := {["CEP"]}; rows := [] |}.

Definition mundo_vazio : Roteiro :=
  {| respostas := []; csv := Ok entrada_vazia; smtp_ativo := true |}.

(** The first world with a file missing or locked. *)
Definition sem_arquivo : Avariado :=
  {| roteiro := mundo_completo; sem_entrada := true; sem_senha := false;
     planilha_bloqueada := false |}.

Definition sem_pass : Avariado :=
  {| roteiro := mundo_completo; sem_entrada := false; sem_senha := true;
     planilha_bloqueada := false |}.

Definition bloqueado : Avariado :=
  {| roteiro := mundo_completo; sem_entrada := false; sem_senha := false;
     planilha_bloqueada := true |}.

(** What [process] returns and leaves when only the password is missing. *)
Definition lote_sem_pass : DataFrame :=
  match (process input_file output_file (estado_avariado sem_pass)).1 with
  | Ok (Some df) => df
  | _ => from_records []
  end.

Definition apos_process_sem_pass : State Avariado :=
  (process input_file output_file (estado_avariado sem_pass)).2.

(** The rows of the batch as [process] leaves them. *)
Definition linha_ok_nova : gmap string pyval :=
  <["EMAIL" := PStr ""]> (<["status" := PStr "Sucesso"]> corpo_completo).

Definition linha_erro_nova : gmap string pyval :=
  <["EMAIL" := PStr ""]>
    (<["status" := PStr "Erro"]> (<["cep" := PStr "00000000"]> ∅)).

(** A state in which [msg] is bound, as it is where the session starts. *)
Definition estado_com_mensagem : State Roteiro :=
  {| world := mundo_completo; trace := []; frame := from_records [];
     msg := Some EmailMessage |}.

(** A state whose frame is the input table: it has no column [status]. *)
Definition estado_sem_status : State Roteiro :=
  {| world := mundo_completo; trace := []; frame := entrada; msg := None |}.

(** ** The provider adapter and the resolver *)

Section Resolver.
Context {World : Type} `{!Externals World}.

Implicit Types (st : State World) (cep link : string).

Lemma realizar_consulta_run link cep st :
  _realizar_consulta link cep st =
  let '(r, w) := http_get link (world st) in
  match corpo_aceito r with
  | Some d =>
      (Ok (sucesso d),
       {| world := w; trace := trace st ++ [EvHttpGet link];
          frame := frame st; msg := msg st |})
  | None =>
      (Ok (PDict (erro_record cep)),
       {| world := w; trace := (trace st ++ [EvHttpGet link]) ++ [EvLog ERROR];
          frame := frame st; msg := msg st |})
  end.
Proof.
  unfold _realizar_consulta, requests_get, raise_for_status, json.
  unfold py_contains, py_get, py_setitem.
  unfold try_except, bind, call, log, emit, ret, raise.
  destruct (http_get link (world st)) as [[[code body]|] w]; simpl; [|done].
  destruct ((400 <=? code) && (code <? 600)); simpl; [done|].
  destruct body as [v|]; simpl; [|done].
  destruct v as [| | | |s|l|d]; simpl; try done.
  - destruct (substring_of "erro" s); done.
  - destruct (existsb _ l); done.
  - destruct (d !! "erro"); simpl; [done|].
    destruct (d !! "cep") as [v|]; simpl; [|done].
    destruct (truthy v); done.
Qed.

(** One run of the resolver, written out: what it returns, the world it
    leaves and the events it adds, by the answers of the two providers. *)
Lemma consultar_cep_run cep st :
  consultar_cep cep st =
  let c := normalizar cep in
  let '(r1, w1) := http_get (viacep_link c) (world st) in
  match corpo_aceito r1 with
  | Some d1 =>
      (Ok (sucesso d1),
       {| world := w1;
          trace := trace st ++ [EvLog INFO; EvHttpGet (viacep_link c)];
          frame := frame st; msg := msg st |})
  | None =>
      let '(r2, w2) := http_get (opencep_link c) w1 in
      match corpo_aceito r2 with
      | Some d2 =>
          (Ok (sucesso d2),
           {| world := w2;
              trace := trace st ++ [EvLog INFO; EvHttpGet (viacep_link c); EvLog ERROR;
                                    EvLog INFO; EvHttpGet (opencep_link c)];
              frame := frame st; msg := msg st |})
      | None =>
          (Ok (PDict (erro_record c)),
           {| world := w2;
              trace := trace st ++ [EvLog INFO; EvHttpGet (viacep_link c); EvLog ERROR;
                                    EvLog INFO; EvHttpGet (opencep_link c); EvLog ERROR];
              frame := frame st; msg := msg st |})
      end
  end.
Proof.
  unfold consultar_cep, consultar_cep_viacep, consultar_cep_opencep.
  unfold bind, log, emit. cbn beta iota zeta.
  rewrite realizar_consulta_run. cbn [world trace frame msg].
  destruct (http_get (viacep_link (normalizar cep)) (world st)) as [r1 w1].
  destruct (corpo_aceito r1) as [d1|].
  - unfold py_getitem, sucesso. rewrite lookup_insert_eq. simpl.
    unfold ret. by rewrite <- !app_assoc.
  - unfold py_getitem, erro_record. rewrite lookup_insert_eq.
    unfold ret. change (py_eq_str (PStr "Erro") "Erro") with true. cbn beta iota.
    rewrite realizar_consulta_run. cbn [world trace frame msg].
    destruct (http_get (opencep_link (normalizar cep)) w1) as [r2 w2].
    destruct (corpo_aceito r2) as [d2|]; by rewrite <- !app_assoc.
Qed.

Lemma http_calls_app (evs evs' : list event) :
  http_calls (evs ++ evs') = http_calls evs ++ http_calls evs'.
Proof. apply omap_app. Qed.

(** C1. [consultar_cep] asks ViaCEP first, with the normalized code.  If
    ViaCEP's answer is accepted, the record is that answer, marked
    ['Sucesso'], and OpenCEP is not asked.  Otherwise OpenCEP is asked with
    the same normalized code, and the record is OpenCEP's answer marked
    ['Sucesso'] if it is accepted, and the ['Erro'] record if not.  So the
    status is ['Sucesso'] exactly when a provider that was asked gave an
    accepted answer, and the fields are those of the first such provider,
    unmerged. *)
Theorem consultar_cep_primeiro_que_resolve cep st :
  let c := normalizar cep in
  let '(r1, w1) := http_get (viacep_link c) (world st) in
  let '(r2, w2) := http_get (opencep_link c) w1 in
  let '(out, st') := consultar_cep cep st in
  match corpo_aceito r1, corpo_aceito r2 with
  | Some d1, _ =>
      out = Ok (PDict (<["status" := PStr "Sucesso"]> d1))
      ∧ http_calls (trace st') = http_calls (trace st) ++ [viacep_link c]
      ∧ world st' = w1
  | None, Some d2 =>
      out = Ok (PDict (<["status" := PStr "Sucesso"]> d2))
      ∧ http_calls (trace st') =
          http_calls (trace st) ++ [viacep_link c; opencep_link c]
      ∧ world st' = w2
  | None, None =>
      out = Ok (PDict (<["status" := PStr "Erro"]> (<["cep" := PStr c]> ∅)))
      ∧ http_calls (trace st') =
          http_calls (trace st) ++ [viacep_link c; opencep_link c]
      ∧ world st' = w2
  end.
Proof.
  rewrite consultar_cep_run. cbv zeta. set (c := normalizar cep).
  destruct (http_get (viacep_link c) (world st)) as [r1 w1].
  destruct (http_get (opencep_link c) w1) as [r2 w2].
  destruct (corpo_aceito r1) as [d1|]; [|destruct (corpo_aceito r2) as [d2|]];
    cbn [trace world]; rewrite http_calls_app; done.
Qed.

(** C3. One call of [consultar_cep] requests at most two links, and
    exactly one, ViaCEP's, when ViaCEP's answer is accepted. *)
Theorem consultar_cep_no_maximo_duas_consultas cep st :
  let c := normalizar cep in
  let r1 := (http_get (viacep_link c) (world st)).1 in
  let st' := (consultar_cep cep st).2 in
  ∃ links,
    http_calls (trace st') = http_calls (trace st) ++ links
    ∧ (length links ≤ 2)%nat
    ∧ links = match corpo_aceito r1 with
              | Some _ => [viacep_link c]
              | None => [viacep_link c; opencep_link c]
              end.
Proof.
  rewrite consultar_cep_run. cbv zeta. set (c := normalizar cep).
  destruct (http_get (viacep_link c) (world st)) as [r1 w1]. cbn [fst].
  destruct (corpo_aceito r1) as [d1|].
  - exists [viacep_link c]. cbn [snd trace]. rewrite http_calls_app.
    split; [done|]. split; [simpl; lia|done].
  - exists [viacep_link c; opencep_link c].
    destruct (http_get (opencep_link c) w1) as [r2 w2].
    destruct (corpo_aceito r2) as [d2|]; cbn [snd trace];
      rewrite http_calls_app; (split; [done|]); (split; [simpl; lia|done]).
Qed.

(** C4. Whatever the two providers do (no answer, an error status, a body
    that is not JSON, JSON of any shape), [consultar_cep] returns, without
    raising, a dict whose ['status'] is ['Sucesso'] or ['Erro']. *)
Theorem consultar_cep_total cep st :
  ∃ d s,
    (consultar_cep cep st).1 = Ok (PDict d)
    ∧ d !! "status" = Some (PStr s)
    ∧ (s = "Sucesso" ∨ s = "Erro").
Proof.
  rewrite consultar_cep_run. cbv zeta.
  destruct (http_get (viacep_link (normalizar cep)) (world st)) as [r1 w1].
  destruct (corpo_aceito r1) as [d1|].
  - eexists _, "Sucesso". split; [done|]. split; [apply lookup_insert_eq|by left].
  - destruct (http_get (opencep_link (normalizar cep)) w1) as [r2 w2].
    destruct (corpo_aceito r2) as [d2|].
    + eexists _, "Sucesso". split; [done|]. split; [apply lookup_insert_eq|by left].
    + eexists _, "Erro". split; [done|]. split; [apply lookup_insert_eq|by right].
Qed.

(** C7, as the code has it.  [_realizar_consulta] answers with the body
    marked ['Sucesso'] exactly when the call returned, the status is not
    in 400..599, and the body is a JSON object with no member ['erro'] and
    a member ['cep'] that is not falsy; the address attributes are not
    looked at.  Every other answer gives the ['Erro'] record. *)
Theorem realizar_consulta_classifica link cep st :
  let r := (http_get link (world st)).1 in
  let out := (_realizar_consulta link cep st).1 in
  (∀ d, corpo_aceito r = Some d
        ↔ ∃ requisicao v,
            r = Some requisicao
            ∧ ¬ (400 ≤ status_code requisicao < 600)
            ∧ json_body requisicao = Some (PDict d)
            ∧ d !! "erro" = None
            ∧ d !! "cep" = Some v
            ∧ truthy v = true)
  ∧ out = match corpo_aceito r with
          | Some d => Ok (PDict (<["status" := PStr "Sucesso"]> d))
          | None => Ok (PDict (<["status" := PStr "Erro"]> (<["cep" := PStr cep]> ∅)))
          end.
Proof.
  cbv zeta. rewrite realizar_consulta_run.
  destruct (http_get link (world st)) as [r w]. cbn [fst]. split.
  - intros d. split.
    + intros Hr. destruct r as [[code body]|]; [|done]. simpl in Hr.
      destruct ((400 <=? code) && (code <? 600)) eqn:Hcode; [done|].
      destruct body as [[| | | | | |d']|]; try done.
      destruct (d' !! "erro") eqn:Herro; [done|].
      destruct (d' !! "cep") as [v|] eqn:Hcep; [|done].
      destruct (truthy v) eqn:Hv; [|done].
      injection Hr as ->.
      exists {| status_code := code; json_body := Some (PDict d) |}, v.
      repeat split; try done. simpl. lia.
    + intros (requisicao & v & -> & Hcode & Hbody & Herro & Hcep & Hv).
      unfold corpo_aceito. rewrite Hbody, Herro, Hcep, Hv.
      destruct ((400 <=? status_code requisicao) && (status_code requisicao <? 600))
        eqn:Hc; [lia|done].
  - by destruct (corpo_aceito r).
Qed.

End Resolver.

Local Close Scope Z_scope.

(** ** Reasoning rules for the monad *)

Create HintDb inv discriminated.

Section Regras.
Context {World : Type} `{!Externals World}.

Implicit Types (st : State World) (P I : State World → Prop).

Lemma hoare_conseq {A} P P' (m : M World A) (Q Q' : res A → State World → Prop) :
  hoare P' m Q' →
  (∀ st, P st → P' st) →
  (∀ r st, Q' r st → Q r st) →
  hoare P m Q.
Proof. intros Hm HP HQ st Hst. apply HQ, Hm, HP, Hst. Qed.

Lemma hoare_and {A} P (m : M World A) (Q Q' : res A → State World → Prop) :
  hoare P m Q → hoare P m Q' → hoare P m (λ r st, Q r st ∧ Q' r st).
Proof. intros Hm Hm' st Hst. split; [by apply Hm|by apply Hm']. Qed.

Lemma hoare_ret {A} P (a : A) (Q : res A → State World → Prop) :
  (∀ st, P st → Q (Ok a) st) → hoare P (ret a) Q.
Proof. intros H st Hst. by apply H. Qed.

Lemma hoare_raise {A} P e (Q : res A → State World → Prop) :
  (∀ st, P st → Q (Raise e) st) → hoare P (raise e) Q.
Proof. intros H st Hst. by apply H. Qed.

Lemma hoare_bind {A B} P (m : M World A) (k : A → M World B)
    (Q1 : res A → State World → Prop) (Q : res B → State World → Prop) :
  hoare P m Q1 →
  (∀ e st, Q1 (Raise e) st → Q (Raise e) st) →
  (∀ a, hoare (Q1 (Ok a)) (k a) Q) →
  hoare P (bind m k) Q.
Proof.
  intros Hm He Hk st Hst. unfold bind. specialize (Hm st Hst).
  destruct (m st) as [[a|e] st']; simpl in *; [by apply Hk|by apply He].
Qed.

Lemma hoare_try_except {A} P (body : M World A) (handler : exn → M World A)
    (Q1 Q : res A → State World → Prop) :
  hoare P body Q1 →
  (∀ a st, Q1 (Ok a) st → Q (Ok a) st) →
  (∀ e, hoare (Q1 (Raise e)) (handler e) Q) →
  hoare P (try_except body handler) Q.
Proof.
  intros Hm Ha Hh st Hst. unfold try_except. specialize (Hm st Hst).
  destruct (body st) as [[a|e] st']; simpl in *; [by apply Ha|by apply Hh].
Qed.

Lemma hoare_try_finally {A} P (body : M World A) (final : M World unit)
    (Q1 Q : res A → State World → Prop) :
  hoare P body Q1 →
  (∀ r, hoare (Q1 r) final
          (λ rf st, Q (match rf with Ok _ => r | Raise e => Raise e end) st)) →
  hoare P (try_finally body final) Q.
Proof.
  intros Hm Hf st Hst. unfold try_finally. specialize (Hm st Hst).
  destruct (body st) as [r st']; simpl in *. specialize (Hf r st' Hm).
  by destruct (final st') as [[[]|e] st''].
Qed.

Lemma inv_ret {A} I (a : A) : inv I (ret a : M World A).
Proof. by apply hoare_ret. Qed.

Lemma inv_raise {A} I e : inv I (raise e : M World A).
Proof. by apply hoare_raise. Qed.

Lemma inv_bind {A B} I (m : M World A) (k : A → M World B) :
  inv I m → (∀ a, inv I (k a)) → inv I (bind m k).
Proof. intros Hm Hk. by apply hoare_bind with (Q1 := λ _, I). Qed.

Lemma hoare_bind_inv {A B} I (m : M World A) (k : A → M World B)
    (Q : res B → State World → Prop) :
  inv I m →
  (∀ e st, I st → Q (Raise e) st) →
  (∀ a, hoare I (k a) Q) →
  hoare I (bind m k) Q.
Proof. intros Hm He Hk. by apply hoare_bind with (Q1 := λ _, I). Qed.

Lemma hoare_bind_det {A B} P (R : State World → Prop) (a0 : A)
    (m : M World A) (k : A → M World B) (Q : res B → State World → Prop) :
  hoare P m (λ r st, r = Ok a0 ∧ R st) →
  hoare R (k a0) Q →
  hoare P (bind m k) Q.
Proof.
  intros Hm Hk. apply hoare_bind with (Q1 := λ r st, r = Ok a0 ∧ R st); [done| |].
  - by intros e st [[=] _].
  - intros a st [[= <-] Hst]. by apply Hk.
Qed.

Lemma inv_try_except {A} I (body : M World A) (handler : exn → M World A) :
  inv I body → (∀ e, inv I (handler e)) → inv I (try_except body handler).
Proof. intros Hm Hh. by apply hoare_try_except with (Q1 := λ _, I). Qed.

Lemma inv_try_finally {A} I (body : M World A) (final : M World unit) :
  inv I body → inv I final → inv I (try_finally body final).
Proof.
  intros Hm Hf. apply hoare_try_finally with (Q1 := λ _, I); [done|].
  intros _. apply Hf.
Qed.

Lemma inv_get_msg I : inv I get_msg.
Proof. by intros st Hst. Qed.

Lemma inv_get_frame I : inv I get_frame.
Proof. by intros st Hst. Qed.

End Regras.

(** Reads a triple whose postcondition is its precondition as [inv]. *)
Ltac como_inv :=
  match goal with
  | |- hoare ?I ?m _ => change (inv I m)
  end.

#[export] Hint Resolve inv_ret inv_raise inv_bind inv_try_except inv_try_finally
  inv_get_msg inv_get_frame : inv.

(** ** The notifier: what one row may change *)

Section Pegada.
Context {World : Type} `{!Externals World}.

Implicit Types (st : State World) (cep : gmap string pyval) (cols : gset string).

Variable I : State World → Prop.
Variable index : nat.

Hypothesis I_msg : ∀ st m, I st →
  I {| world := world st; trace := trace st; frame := frame st; msg := Some m |}.
Hypothesis I_log : ∀ st l, I st →
  I {| world := world st; trace := trace st ++ [EvLog l];
       frame := frame st; msg := msg st |}.
Hypothesis I_at : ∀ st v, I st →
  I {| world := world st; trace := trace st;
       frame := set_at index "EMAIL" v (frame st); msg := msg st |}.

(** [Q v] is what writing [v] in the [EMAIL] cell of the row achieves. *)
Variable Q : pyval → State World → Prop.

Hypothesis Q_at : ∀ st v, I st →
  Q v {| world := world st; trace := trace st;
         frame := set_at index "EMAIL" v (frame st); msg := msg st |}.
Hypothesis Q_log : ∀ st v l, Q v st →
  Q v {| world := world st; trace := trace st ++ [EvLog l];
         frame := frame st; msg := msg st |}.

Lemma inv_series_get cols cep c : inv I (series_get cols cep c).
Proof. unfold series_get. case_decide; auto with inv. Qed.

Lemma inv_the_msg : inv I the_msg.
Proof.
  unfold the_msg. apply inv_bind; [auto with inv|].
  intros [m|]; auto with inv.
Qed.

Lemma inv_log l : inv I (log l).
Proof. intros st Hst. by apply I_log. Qed.

Lemma inv_set_msg m : inv I (set_msg (Some m)).
Proof. intros st Hst. by apply I_msg. Qed.

Lemma inv_at_set v : inv I (at_set index "EMAIL" v).
Proof.
  intros st Hst. unfold at_set, bind, get_frame, set_frame. simpl.
  by apply I_at.
Qed.

Local Hint Resolve inv_series_get inv_the_msg inv_log inv_set_msg inv_at_set : inv.

Lemma inv_set_header name value : inv I (set_header name value).
Proof.
  unfold set_header. apply inv_bind; [auto with inv|].
  intros m. destruct (header_ok name value); auto with inv.
Qed.

Lemma inv_set_content corpo : inv I (set_content corpo).
Proof.
  unfold set_content. apply inv_bind; [auto with inv|].
  intros m. destruct (content_ok corpo); auto with inv.
Qed.

Lemma inv_personalizar corpo_template cols cep :
  inv I (personalizar corpo_template cols cep).
Proof. unfold personalizar. auto 20 with inv. Qed.

Lemma inv_falha cols cep e : inv I (falha cols index cep e).
Proof. unfold falha. auto 20 with inv. Qed.

Local Hint Resolve inv_set_header inv_set_content inv_personalizar inv_falha : inv.

Lemma at_set_ok v :
  hoare I (at_set index "EMAIL" v) (λ r st, r = Ok tt → Q v st).
Proof.
  intros st Hst _. unfold at_set, bind, get_frame, set_frame. simpl.
  by apply Q_at.
Qed.

Lemma falha_ok cols cep e :
  hoare I (falha cols index cep e) (λ r st, r = Ok tt → Q (PStr "Erro") st).
Proof.
  unfold falha.
  do 3 (apply hoare_bind_inv; [auto with inv|done|intros ?]).
  apply at_set_ok.
Qed.

Section Envio.

Hypothesis I_smtp : ∀ st c w, I st →
  I {| world := w; trace := trace st ++ [EvSmtp index c];
       frame := frame st; msg := msg st |}.

Lemma inv_smtp c : inv I (smtp index c).
Proof.
  unfold smtp. apply inv_bind.
  - intros st Hst. unfold call. destruct (smtp_do c (world st)) as [ok w].
    by apply I_smtp.
  - intros []; auto with inv.
Qed.

Local Hint Resolve inv_smtp : inv.

Lemma inv_entregar email_senha email_de : inv I (entregar email_senha email_de index).
Proof. unfold entregar, with_SMTP. auto 20 with inv. Qed.

Local Hint Resolve inv_entregar : inv.

Lemma inv_despachar email_senha email_de corpo cols cep :
  inv I (despachar email_senha email_de corpo cols index cep).
Proof. unfold despachar. auto 30 with inv. Qed.

Local Hint Resolve inv_despachar : inv.

Lemma inv_tentativa email_senha corpo_template email_de cols cep :
  inv I (tentativa email_senha corpo_template email_de cols index cep).
Proof. unfold tentativa. auto with inv. Qed.

Lemma despachar_ok email_senha email_de corpo cols cep :
  hoare I (despachar email_senha email_de corpo cols index cep)
    (λ r st, r = Ok tt → Q (PStr "Sucesso") st).
Proof.
  unfold despachar.
  do 9 (apply hoare_bind_inv; [auto with inv|done|intros ?]).
  apply at_set_ok.
Qed.

Lemma tentativa_ok email_senha corpo_template email_de cols cep :
  hoare I (tentativa email_senha corpo_template email_de cols index cep)
    (λ r st, r = Ok tt → Q (PStr "Sucesso") st).
Proof.
  unfold tentativa.
  do 2 (apply hoare_bind_inv; [auto with inv|done|intros ?]).
  apply despachar_ok.
Qed.

End Envio.

Lemma inv_enviar email_senha corpo_template email_de cols cep :
  (status_sucesso cep = true →
   ∀ st c w, I st →
     I {| world := w; trace := trace st ++ [EvSmtp index c];
          frame := frame st; msg := msg st |}) →
  inv I (enviar email_senha corpo_template email_de cols index cep).
Proof.
  intros I_smtp. unfold enviar.
  apply hoare_bind
    with (Q1 := λ r st, I st ∧ ∀ a, r = Ok a → a = default NaN (cep !! "status")).
  - unfold series_get. case_decide; intros st Hst; (split; [done|]).
    + by intros a [= <-].
    + by intros a [=].
  - by intros e st [Hst _].
  - intros a st [Hst Ha]. specialize (Ha a eq_refl) as ->.
    fold (status_sucesso cep). destruct (status_sucesso cep) eqn:Hs.
    + assert (inv I (try_finally
                (try_except
                   (tentativa email_senha corpo_template email_de cols index cep)
                   (falha cols index cep))
                (log INFO))) as Hinv; [|by apply Hinv].
      apply inv_try_finally; [|auto with inv].
      apply inv_try_except; [|auto with inv].
      apply inv_tentativa. by apply I_smtp.
    + assert (inv I (bind (series_get cols cep "cep")
                       (λ _, bind (log INFO)
                               (λ _, at_set index "EMAIL" (PStr "Erro")))))
        as Hinv; [|by apply Hinv].
      auto 20 with inv.
Qed.

(** When [enviar] returns, the [EMAIL] cell of its row has been written:
    ['Erro'] for a row that is not ['Sucesso'], one of the two otherwise. *)
Lemma enviar_ok email_senha corpo_template email_de cols cep :
  (status_sucesso cep = true →
   ∀ st c w, I st →
     I {| world := w; trace := trace st ++ [EvSmtp index c];
          frame := frame st; msg := msg st |}) →
  hoare I (enviar email_senha corpo_template email_de cols index cep)
    (λ r st, r = Ok tt →
             if status_sucesso cep
             then Q (PStr "Sucesso") st ∨ Q (PStr "Erro") st
             else Q (PStr "Erro") st).
Proof.
  intros I_smtp. unfold enviar.
  apply hoare_bind
    with (Q1 := λ r st, I st ∧ ∀ a, r = Ok a → a = default NaN (cep !! "status")).
  - unfold series_get. case_decide; intros st Hst; (split; [done|]).
    + by intros a [= <-].
    + by intros a [=].
  - by intros e st [Hst _].
  - intros a st [Hst Ha]. specialize (Ha a eq_refl) as ->.
    fold (status_sucesso cep). destruct (status_sucesso cep) eqn:Hs.
    + specialize (I_smtp eq_refl).
      assert (hoare I
                (try_finally
                   (try_except
                      (tentativa email_senha corpo_template email_de cols index cep)
                      (falha cols index cep))
                   (log INFO))
                (λ r st, r = Ok tt → Q (PStr "Sucesso") st ∨ Q (PStr "Erro") st))
        as Hh; [|by apply Hh].
      apply hoare_try_finally
        with (Q1 := λ r st, r = Ok tt → Q (PStr "Sucesso") st ∨ Q (PStr "Erro") st).
      * apply hoare_try_except
          with (Q1 := λ r st, I st ∧ (r = Ok tt → Q (PStr "Sucesso") st)).
        -- apply hoare_and; [by apply inv_tentativa|by apply tentativa_ok].
        -- intros [] st' [_ HQ] _. left. by apply HQ.
        -- intros e. eapply hoare_conseq; [apply falha_ok| |].
           ++ by intros st' [Hst' _].
           ++ intros r st' HQ Hr. right. by apply HQ.
      * intros r st' HQ. unfold log, emit. simpl. intros ->.
        destruct (HQ eq_refl); [left|right]; by apply Q_log.
    + assert (hoare I
                (bind (series_get cols cep "cep")
                   (λ _, bind (log INFO)
                           (λ _, at_set index "EMAIL" (PStr "Erro"))))
                (λ r st, r = Ok tt → Q (PStr "Erro") st))
        as Hh; [|by apply Hh].
      do 2 (apply hoare_bind_inv; [auto with inv|done|intros ?]).
      apply at_set_ok.
Qed.

End Pegada.

(** ** The notifier: the whole batch *)

Section Notificador.
Context {World : Type} `{!Externals World}.

Implicit Types (st : State World) (cep : gmap string pyval) (cols : gset string).
Implicit Types (df : DataFrame) (toca envia : nat → Prop).

Lemma so_email_refl toca df : so_email toca df df.
Proof. repeat split; set_solver. Qed.

Lemma so_email_trans toca df1 df2 df3 :
  so_email toca df1 df2 → so_email toca df2 df3 → so_email toca df1 df3.
Proof.
  intros (Hc1 & Hc1' & Hl1 & Hr1) (Hc2 & Hc2' & Hl2 & Hr2).
  split; [by etrans|]. split; [|split; [congruence|]].
  { intros x [Hx|Hx]%Hc2'%elem_of_union; [by apply elem_of_union_l|by apply Hc1']. }
  intros j. destruct (Hr1 j) as [Hj1 Hj1'], (Hr2 j) as [Hj2 Hj2']. split.
  - intros Hj. by rewrite Hj2, Hj1.
  - intros c Hc. by rewrite Hj2', Hj1'.
Qed.

Lemma so_email_set_at toca index v df :
  toca index → so_email toca df (set_at index "EMAIL" v df).
Proof.
  intros Hi. unfold set_at. split; [set_solver|]. split; [set_solver|].
  simpl. split; [apply length_alter|].
  intros j. split.
  - intros Hj. apply list_lookup_alter_ne. by intros ->.
  - intros c Hc. destruct (decide (index = j)) as [->|Hne].
    + rewrite list_lookup_alter_eq. destruct (rows df !! j) as [r|]; [|done].
      simpl. by apply lookup_insert_ne.
    + by rewrite list_lookup_alter_ne.
Qed.

Lemma pegada_refl toca envia st : pegada toca envia st st.
Proof.
  split; [|apply so_email_refl]. exists []. by rewrite app_nil_r.
Qed.

Lemma pegada_evento toca envia st0 st e w m :
  evento_de_envio envia e →
  pegada toca envia st0 st →
  pegada toca envia st0
    {| world := w; trace := trace st ++ [e]; frame := frame st; msg := m |}.
Proof.
  intros He [(evs & Ht & Hevs) Hf]. split; [|done].
  exists (evs ++ [e]). simpl. rewrite Ht, app_assoc. split; [done|].
  apply Forall_app. by split; [|apply Forall_singleton].
Qed.

Lemma pegada_enviar toca envia st0 email_senha corpo_template email_de cols index cep :
  toca index →
  (status_sucesso cep = true → envia index) →
  inv (pegada toca envia st0)
    (enviar email_senha corpo_template email_de cols index cep).
Proof.
  intros Htoca Henvia. apply inv_enviar.
  - by intros st m [Ht Hf].
  - intros st l Hst. by apply pegada_evento.
  - intros st v [Ht Hf]. split; [done|]. simpl.
    eapply so_email_trans; [done|]. by apply so_email_set_at.
  - intros Hs st c w Hst. apply pegada_evento; [|done]. by apply Henvia.
Qed.

Lemma pegada_para_cada toca envia st0 email_senha corpo_template email_de cols linhas :
  ∀ index,
    (∀ k cep, linhas !! k = Some cep →
              toca (index + k) ∧ (status_sucesso cep = true → envia (index + k))) →
    inv (pegada toca envia st0)
      (para_cada email_senha corpo_template email_de cols index linhas).
Proof.
  induction linhas as [|cep linhas IH]; intros index Hl; simpl.
  - apply inv_ret.
  - apply inv_bind.
    + destruct (Hl 0 cep eq_refl) as [Ht He]. rewrite Nat.add_0_r in Ht, He.
      by apply pegada_enviar.
    + intros _. apply IH. intros k cep' Hk.
      replace (S index + k) with (index + S k) by lia. by apply Hl.
Qed.

(** [send_emails], unfolded down to its loop. *)
Lemma send_emails_run email_senha corpo_template email_de output st :
  send_emails email_senha corpo_template email_de output st =
  match para_cada email_senha corpo_template email_de
          (columns (frame st)) 0 (rows (frame st))
          {| world := world st; trace := trace st; frame := frame st; msg := None |}
  with
  | (Ok _, st2) => to_excel output (frame st2) st2
  | (Raise e, st2) => (Raise e, st2)
  end.
Proof.
  unfold send_emails, bind, set_msg, get_frame. simpl.
  by destruct (para_cada _ _ _ _ _ _ _) as [[[]|e] st2].
Qed.

Lemma pegada_send_emails email_senha corpo_template email_de output st :
  pegada (λ _, True) (linha_sucesso (frame st)) st
    (send_emails email_senha corpo_template email_de output st).2.
Proof.
  rewrite send_emails_run.
  pose proof (pegada_para_cada (λ _, True) (linha_sucesso (frame st)) st
                email_senha corpo_template email_de
                (columns (frame st)) (rows (frame st)) 0) as Hloop.
  specialize (Hloop (λ k cep Hk, conj Logic.I (λ Hs, ex_intro _ cep (conj Hk Hs)))).
  specialize (Hloop {| world := world st; trace := trace st;
                       frame := frame st; msg := None |}).
  simpl in Hloop.
  destruct (para_cada _ _ _ _ _ _ _) as [[[]|e] st2]; simpl in *.
  - assert (pegada (λ _, True) (linha_sucesso (frame st)) st st2) as Hst2.
    { apply Hloop. split; [|apply so_email_refl]. exists []. by rewrite app_nil_r. }
    unfold to_excel, bind, call.
    destruct (excel_write output (frame st2) (world st2)) as [[] w]; simpl;
      by apply pegada_evento.
  - apply Hloop. split; [|apply so_email_refl]. exists []. by rewrite app_nil_r.
Qed.

Lemma smtp_calls_nil envia i evs :
  Forall (evento_de_envio envia) evs → ¬ envia i → smtp_calls i evs = [].
Proof.
  intros Hevs Hi. induction Hevs as [|e evs He _ IH]; [done|].
  unfold smtp_calls in *. change (e :: evs) with ([e] ++ evs).
  rewrite omap_app, IH, app_nil_r. destruct e; try done.
  simpl in *. case_decide; [by subst|done].
Qed.

(** A row whose status is not ['Sucesso']: nothing is sent, the cell is
    set to ['Erro'], one line is logged. *)
Lemma enviar_falha email_senha corpo_template email_de cols index cep st :
  "status" ∈ cols → "cep" ∈ cols → status_sucesso cep = false →
  enviar email_senha corpo_template email_de cols index cep st =
  (Ok tt,
   {| world := world st; trace := trace st ++ [EvLog INFO];
      frame := set_at index "EMAIL" (PStr "Erro") (frame st); msg := msg st |}).
Proof.
  intros Hstatus Hcep Hs. unfold enviar, series_get, bind.
  rewrite !decide_True by done. unfold ret at 1. fold (status_sucesso cep).
  by rewrite Hs.
Qed.

Lemma cell_at_set_at index c v df :
  (index < length (rows df))%nat →
  cell_at (set_at index c v df) index c = Some v.
Proof.
  intros Hlt. unfold cell_at, set_at. simpl.
  rewrite decide_True by set_solver. rewrite list_lookup_alter_eq.
  destruct (lookup_lt_is_Some_2 _ _ Hlt) as [r ->]. simpl.
  by rewrite lookup_insert_eq.
Qed.

Lemma cell_at_preservado toca df df' j c :
  so_email toca df df' → ¬ toca j → is_Some (cell_at df j c) →
  cell_at df' j c = cell_at df j c.
Proof.
  intros (Hc & _ & _ & Hrows) Hj. unfold cell_at.
  destruct (decide (c ∈ columns df)) as [Hin|]; [|by intros [? ?]].
  intros _. rewrite decide_True by by apply Hc.
  destruct (Hrows j) as [-> _]; done.
Qed.

Lemma enviar_escreve_email email_senha corpo_template email_de cols index cep st :
  (index < length (rows (frame st)))%nat →
  (enviar email_senha corpo_template email_de cols index cep st).1 = Ok tt →
  let v := cell_at
             (frame (enviar email_senha corpo_template email_de cols index cep st).2)
             index "EMAIL" in
  if status_sucesso cep then email_final v else v = Some (PStr "Erro").
Proof.
  intros Hlt Hok.
  pose proof (enviar_ok (λ st', (index < length (rows (frame st')))%nat) index) as H.
  specialize (H ltac:(done) ltac:(done)).
  specialize (H ltac:(by intros; simpl; rewrite length_alter)).
  specialize (H (λ v st', cell_at (frame st') index "EMAIL" = Some v)).
  simpl in H. eapply H in Hok; [| | |by intros|done].
  - destruct (status_sucesso cep); [|done]. destruct Hok; [by left|by right].
  - intros st' v Hst'. by apply cell_at_set_at.
  - done.
Qed.

Lemma para_cada_ok email_senha corpo_template email_de cols linhas :
  ∀ index st,
    (index + length linhas ≤ length (rows (frame st)))%nat →
    (para_cada email_senha corpo_template email_de cols index linhas st).1 = Ok tt →
    ∀ k cep, linhas !! k = Some cep →
      let v := cell_at
                 (frame (para_cada email_senha corpo_template email_de
                           cols index linhas st).2)
                 (index + k) "EMAIL" in
      if status_sucesso cep then email_final v else v = Some (PStr "Erro").
Proof.
  induction linhas as [|cep0 linhas IH]; intros index st Hlen Hok k cep Hk; [done|].
  simpl in Hlen, Hok |- *. unfold bind in Hok |- *.
  pose proof (enviar_escreve_email email_senha corpo_template email_de
                cols index cep0 st ltac:(lia)) as Hcell.
  pose proof (pegada_enviar (λ j, j = index) (λ _, True) st
                email_senha corpo_template email_de cols index cep0
                eq_refl (λ _, Logic.I) st (pegada_refl _ _ _)) as [_ Hf1].
  destruct (enviar _ _ _ _ _ _ _) as [[[]|e] st1]; [|done]. simpl in Hcell, Hf1.
  destruct Hf1 as (_ & _ & Hl1 & _). specialize (Hcell eq_refl).
  destruct k as [|k]; simpl in Hk.
  - injection Hk as <-. rewrite Nat.add_0_r.
    pose proof (pegada_para_cada (λ j, (S index ≤ j)%nat) (λ _, True) st1
                  email_senha corpo_template email_de cols linhas (S index)) as Hrest.
    specialize (Hrest (λ k _ _, conj (Nat.le_add_r (S index) k) (λ _, Logic.I))).
    destruct (Hrest st1 (pegada_refl _ _ _)) as [_ Hso].
    rewrite (cell_at_preservado _ _ _ index "EMAIL" Hso); [done|lia|].
    destruct (status_sucesso cep0); [by destruct Hcell as [->| ->]|by rewrite Hcell].
  - replace (index + S k) with (S index + k) by lia.
    apply IH; [lia|done|done].
Qed.

(** C10. [send_emails] leaves the frame as it was but for the column
    [EMAIL]: it has the same rows, the same columns but possibly [EMAIL],
    and every cell of any other column reads as before, whatever the
    sends do and whether or not [send_emails] raises. *)
Theorem send_emails_so_altera_email email_senha corpo_template email_de output st :
  let df := frame st in
  let df' := frame (send_emails email_senha corpo_template email_de output st).2 in
  length (rows df') = length (rows df)
  ∧ (∀ c, c ≠ "EMAIL" → (c ∈ columns df' ↔ c ∈ columns df))
  ∧ (∀ i c, c ≠ "EMAIL" →
            rows df' !! i ≫= (λ r, r !! c) = rows df !! i ≫= (λ r, r !! c))
  ∧ (∀ i c, c ≠ "EMAIL" → cell_at df' i c = cell_at df i c).
Proof.
  intros df df'.
  destruct (pegada_send_emails email_senha corpo_template email_de output st)
    as [_ (Hc & Hc' & Hlen & Hrows)].
  fold df df' in Hc, Hc', Hlen, Hrows.
  assert (∀ c, c ≠ "EMAIL" → c ∈ columns df' ↔ c ∈ columns df) as Hcols.
  { intros c Hne. split; [|apply Hc].
    intros [Hin|Hin]%Hc'%elem_of_union; [|done].
    by apply elem_of_singleton in Hin. }
  split; [done|]. split; [done|]. split; [intros i c Hne; by apply Hrows|].
  intros i c Hne. unfold cell_at.
  destruct (Hrows i) as [_ Hcell]. specialize (Hcell c Hne).
  destruct (decide (c ∈ columns df')) as [Hin|Hin];
    destruct (decide (c ∈ columns df)) as [Hin'|Hin'];
    try (apply Hcols in Hin; done); try (apply Hcols in Hin'; done); [|done].
  destruct (rows df' !! i) as [r'|] eqn:Hr'; destruct (rows df !! i) as [r|] eqn:Hr;
    simpl in *.
  - by rewrite Hcell.
  - apply lookup_lt_Some in Hr'. apply lookup_ge_None in Hr. lia.
  - apply lookup_lt_Some in Hr. apply lookup_ge_None in Hr'. lia.
  - done.
Qed.

(** A row whose status is ['Erro']: [enviar], the body of the loop,
    returns without any SMTP call and with the row's [EMAIL] set to
    ['Erro']; in a run of [send_emails] no SMTP call is made for that row,
    and the row's [EMAIL] reads ['Erro'] if [send_emails] returns.  If it
    does not, the loop may have been left before it reached the row. *)
Lemma send_emails_erro_sem_envio email_senha corpo_template email_de output
    st i cep :
  rows (frame st) !! i = Some cep →
  "status" ∈ columns (frame st) →
  "cep" ∈ columns (frame st) →
  cep !! "status" = Some (PStr "Erro") →
  (∀ st1,
     enviar email_senha corpo_template email_de (columns (frame st)) i cep st1 =
     (Ok tt,
      {| world := world st1; trace := trace st1 ++ [EvLog INFO];
         frame := set_at i "EMAIL" (PStr "Erro") (frame st1); msg := msg st1 |}))
  ∧ let '(r, st') := send_emails email_senha corpo_template email_de output st in
    (∃ evs, trace st' = trace st ++ evs ∧ smtp_calls i evs = [])
    ∧ (r = Ok tt → cell_at (frame st') i "EMAIL" = Some (PStr "Erro")).
Proof.
  intros Hi Hstatus Hcep Herro.
  assert (status_sucesso cep = false) as Hs.
  { unfold status_sucesso. by rewrite Herro. }
  split; [intros st1; by apply enviar_falha|].
  pose proof (pegada_send_emails email_senha corpo_template email_de output st)
    as [(evs & Ht & Hevs) (Hc & _ & _ & _)].
  pose proof (send_emails_run email_senha corpo_template email_de output st) as Hrun.
  destruct (send_emails _ _ _ _ st) as [r st']. simpl in Ht, Hc. split.
  - exists evs. split; [done|]. apply (smtp_calls_nil _ _ _ Hevs).
    intros (cep' & Hi' & Hs'). congruence.
  - intros ->.
    pose proof (para_cada_ok email_senha corpo_template email_de
                  (columns (frame st)) (rows (frame st)) 0
                  {| world := world st; trace := trace st;
                     frame := frame st; msg := None |}) as Hloop.
    simpl in Hloop. specialize (Hloop ltac:(lia)).
    destruct (para_cada _ _ _ _ _ _ _) as [[[]|e] st2]; [|by simplify_eq].
    specialize (Hloop eq_refl i cep Hi). simpl in Hloop. rewrite Hs in Hloop.
    assert (frame st' = frame st2) as Hf.
    { unfold to_excel, bind, call, ret, raise in Hrun.
      destruct (excel_write output (frame st2) (world st2)) as [[] w];
        by simplify_eq/=. }
    by rewrite Hf.
Qed.

(** *** Steps that cannot raise *)

Lemma series_get_certo (P : State World → Prop) cols cep c :
  c ∈ cols →
  hoare P (series_get cols cep c) (λ r st, r = Ok (default NaN (cep !! c)) ∧ P st).
Proof. intros Hc st Hst. unfold series_get. by rewrite decide_True. Qed.

Lemma personalizar_certo (P : State World → Prop) corpo_template cols cep :
  colunas_completas cols →
  ∃ corpo,
    hoare P (personalizar corpo_template cols cep) (λ r st, r = Ok corpo ∧ P st).
Proof.
  intros (_ & Hcep & Hend). eexists. unfold personalizar.
  do 5 (eapply hoare_bind_det;
        [apply series_get_certo; first [done|apply Hend; set_solver]|]).
  intros st Hst. split; [reflexivity|done].
Qed.

Lemma the_msg_certo st :
  is_Some (msg st) → ∃ m, the_msg st = (Ok m, st).
Proof. intros [m Hm]. exists m. unfold the_msg, bind, get_msg. by rewrite Hm. Qed.

Lemma falha_certo cols index cep e :
  "cep" ∈ cols →
  hoare (λ st, is_Some (msg st)) (falha cols index cep e) (λ r _, r = Ok tt).
Proof.
  intros Hcep st Hst. unfold falha, bind.
  destruct (the_msg_certo st Hst) as [m ->].
  unfold series_get. by rewrite decide_True.
Qed.

(** When the frame has the columns the loop reads, [enviar] returns: an
    exception raised once [msg] is bound is caught and recorded. *)
Lemma enviar_sem_excecao email_senha corpo_template email_de cols index cep st :
  colunas_completas cols →
  (enviar email_senha corpo_template email_de cols index cep st).1 = Ok tt.
Proof.
  intros Hcols. pose proof Hcols as (Hstatus & Hcep & _).
  revert st.
  assert (hoare (λ _, True)
            (enviar email_senha corpo_template email_de cols index cep)
            (λ r _, r = Ok tt)) as Hh; [|intros st; by apply Hh].
  unfold enviar.
  eapply hoare_bind_det; [by apply series_get_certo|].
  destruct (py_eq_str _ _).
  - apply hoare_try_finally with (Q1 := λ r _, r = Ok tt); [|by intros r st ->].
    apply hoare_try_except with (Q1 := λ r st, r = Ok tt ∨ is_Some (msg st)).
    + unfold tentativa.
      destruct (personalizar_certo (λ _, True) corpo_template cols cep Hcols)
        as [corpo Hcorpo].
      eapply hoare_bind_det; [apply Hcorpo|].
      apply hoare_bind_det with (R := λ st, is_Some (msg st)) (a0 := tt).
      * intros st _. split; [done|]. simpl. eauto.
      * assert (inv (λ st, is_Some (msg st))
                  (despachar email_senha email_de corpo cols index cep)) as Hinv.
        { apply inv_despachar; intros; simpl in *; eauto. }
        eapply hoare_conseq; [apply Hinv|done|].
        intros r st Hst. by right.
    + by intros [] st _.
    + intros e. eapply hoare_conseq; [by apply falha_certo| |done].
      by intros st [[=]|Hst].
  - eapply hoare_bind_det; [by apply series_get_certo|].
    by intros st _.
Qed.

Lemma para_cada_sem_excecao email_senha corpo_template email_de cols linhas :
  colunas_completas cols →
  ∀ index st,
    (para_cada email_senha corpo_template email_de cols index linhas st).1 = Ok tt.
Proof.
  intros Hcols. induction linhas as [|cep linhas IH]; intros index st; [done|].
  simpl. unfold bind.
  pose proof (enviar_sem_excecao email_senha corpo_template email_de
                cols index cep st Hcols) as Hok.
  destruct (enviar _ _ _ _ _ _ _) as [r st1]. simpl in Hok. subst r. apply IH.
Qed.

Lemma send_emails_escreve_email email_senha corpo_template email_de output st st' :
  send_emails email_senha corpo_template email_de output st = (Ok tt, st') →
  ∀ i cep, rows (frame st) !! i = Some cep →
    if status_sucesso cep
    then email_final (cell_at (frame st') i "EMAIL")
    else cell_at (frame st') i "EMAIL" = Some (PStr "Erro").
Proof.
  rewrite send_emails_run. intros Hrun i cep Hi.
  pose proof (para_cada_ok email_senha corpo_template email_de
                (columns (frame st)) (rows (frame st)) 0
                {| world := world st; trace := trace st;
                   frame := frame st; msg := None |}) as Hloop.
  simpl in Hloop. specialize (Hloop ltac:(lia)).
  destruct (para_cada _ _ _ _ _ _ _) as [[[]|e] st2]; [|by simplify_eq].
  specialize (Hloop eq_refl i cep Hi). simpl in Hloop.
  assert (frame st' = frame st2) as ->; [|done].
  unfold to_excel, bind, call, ret, raise in Hrun.
  destruct (excel_write output (frame st2) (world st2)) as [[] w];
    by simplify_eq/=.
Qed.

End Notificador.

(** ** The batch pipeline *)

Section Lote.
Context {World : Type} `{!Externals World}.

Implicit Types (st : State World) (df : DataFrame).

Lemma corpo_aceito_cep r d : corpo_aceito r = Some d → is_Some (d !! "cep").
Proof.
  destruct r as [[code body]|]; [|done]. simpl.
  destruct ((400 <=? code)%Z && (code <? 600)%Z); [done|].
  destruct body as [[| | | | | |d']|]; try done.
  destruct (d' !! "erro"); [done|].
  destruct (d' !! "cep") as [v|] eqn:Hcep; [|done].
  destruct (truthy v); [|done]. intros [= <-]. eauto.
Qed.

Lemma consultar_cep_registro cep st :
  ∃ d, (consultar_cep cep st).1 = Ok (PDict d) ∧ registro_ok d.
Proof.
  rewrite consultar_cep_run. cbv zeta.
  destruct (http_get (viacep_link (normalizar cep)) (world st)) as [r1 w1].
  destruct (corpo_aceito r1) as [d1|] eqn:H1.
  - eexists. split; [done|]. split; [left; apply lookup_insert_eq|].
    rewrite lookup_insert_ne by done. by eapply corpo_aceito_cep.
  - destruct (http_get (opencep_link (normalizar cep)) w1) as [r2 w2].
    destruct (corpo_aceito r2) as [d2|] eqn:H2.
    + eexists. split; [done|]. split; [left; apply lookup_insert_eq|].
      rewrite lookup_insert_ne by done. by eapply corpo_aceito_cep.
    + eexists. split; [done|]. split; [right; apply lookup_insert_eq|].
      unfold erro_record. rewrite lookup_insert_ne by done.
      rewrite lookup_insert_eq. eauto.
Qed.

Lemma consultar_todos_ok ceps :
  ∀ acc st,
    ∃ novos,
      (consultar_todos ceps acc st).1 = Ok (acc ++ novos)
      ∧ length novos = length ceps
      ∧ Forall (λ v, ∃ d, v = PDict d ∧ registro_ok d) novos.
Proof.
  induction ceps as [|cep ceps IH]; intros acc st; simpl.
  - exists []. by rewrite app_nil_r.
  - unfold bind, log, emit. simpl.
    match goal with
    | |- context [consultar_cep ?c ?s] =>
        destruct (consultar_cep_registro c s) as (d & Hd & Hok);
        destruct (consultar_cep c s) as [r st1]
    end.
    simpl in Hd. subst r.
    destruct (IH (acc ++ [PDict d]) st1) as (novos & Hn & Hlen & Hall).
    exists (PDict d :: novos). rewrite Hn, <- app_assoc. split; [done|].
    split; [simpl; by rewrite Hlen|]. constructor; eauto.
Qed.

Lemma records_of_ok dados :
  Forall (λ v, ∃ d, v = PDict d ∧ registro_ok d) dados →
  ∃ registros,
    (∀ st, records_of dados st = (Ok registros, st))
    ∧ length registros = length dados
    ∧ Forall registro_ok registros.
Proof.
  induction 1 as [|v dados (d & -> & Hd) _ (registros & Hrun & Hlen & Hall)].
  - by exists [].
  - exists (d :: registros). split; [|split; [simpl; by rewrite Hlen|by constructor]].
    intros st. simpl. unfold bind. by rewrite Hrun.
Qed.

(** What [process] returns when it returns a frame. *)
Lemma process_some input output st df st1 :
  process input output st = (Ok (Some df), st1) →
  ∃ registros,
    df = set_column "EMAIL" (PStr "") (from_records registros)
    ∧ Forall registro_ok registros.
Proof.
  unfold process, try_finally, try_except, bind at 1 2, read_csv, bind, call.
  destruct (csv_read input (world st)) as [[entrada|e] w]; simpl; [|by intros [=]].
  destruct (decide ("CEP" ∈ columns entrada)) as [Hin|Hin]; simpl; [|by intros [=]].
  unfold column. rewrite decide_True by done. unfold ret at 1.
  match goal with
  | |- context [consultar_todos ?c ?a ?s] =>
      destruct (consultar_todos_ok c a s) as (novos & Hn & _ & Hall);
      destruct (consultar_todos c a s) as [r st2]
  end.
  simpl in Hn. subst r.
  destruct (records_of_ok novos Hall) as (registros & Hrun & _ & Hregs).
  rewrite Hrun. unfold to_excel, bind, call.
  destruct (excel_write _ _ _) as [[] w']; simpl; [|by intros [=]].
  intros [= <- _]. eauto.
Qed.

(** C9. When the input file is read but has no column ['CEP'],
    [process] stops before its loop: it logs the error and returns
    [None], having requested no link, built no record and written no
    file; [main] then fails on [None.empty] without any mail or report. *)
Theorem process_sem_coluna_cep st entrada w :
  csv_read input_file (world st) = (Ok entrada, w) →
  "CEP" ∉ columns entrada →
  let ocorrido := [EvReadCsv input_file; EvLog ERROR; EvLog INFO] in
  process input_file output_file st =
    (Ok None,
     {| world := w; trace := trace st ++ ocorrido;
        frame := frame st; msg := msg st |})
  ∧ main st =
      (Raise AttributeError,
       {| world := w; trace := trace st ++ ocorrido ++ [EvLog ERROR];
          frame := frame st; msg := msg st |})
  ∧ http_calls ocorrido = []
  ∧ arquivos_escritos ocorrido = [].
Proof.
  intros Hcsv Hcol ocorrido.
  assert (process input_file output_file st =
          (Ok None,
           {| world := w; trace := trace st ++ ocorrido;
              frame := frame st; msg := msg st |})) as Hp.
  { unfold process, try_finally, try_except, bind at 1 2, read_csv, bind, call.
    rewrite Hcsv. simpl. rewrite decide_False by done. simpl.
    by rewrite <- !app_assoc. }
  split; [done|]. split; [|done].
  unfold main, try_except, bind. rewrite Hp. simpl.
  by rewrite <- !app_assoc.
Qed.

Lemma conta_tem_valor c s (linhas : list (gmap string pyval)) :
  conta ((λ r, default NaN (r !! c)) <$> linhas) s
  = length (filter (tem_valor c s) linhas).
Proof.
  unfold conta. induction linhas as [|r linhas IH]; [done|].
  rewrite fmap_cons, !filter_cons.
  destruct (decide (tem_valor c s r)) as [Hr|Hr]; unfold tem_valor in Hr.
  - rewrite decide_True; [simpl; by rewrite IH|].
    rewrite Hr. simpl. apply String.eqb_refl.
  - rewrite decide_False; [done|].
    destruct (r !! c) as [[| | | |t| |]|]; simpl; try done.
    intros Heq%String.eqb_eq. congruence.
Qed.

Lemma conta_soma c (linhas : list (gmap string pyval)) :
  Forall (λ r, tem_valor c "Sucesso" r ∨ tem_valor c "Erro" r) linhas →
  length (filter (tem_valor c "Sucesso") linhas)
  + length (filter (tem_valor c "Erro") linhas)
  = length linhas.
Proof.
  induction 1 as [|r linhas Hr _ IH]; [done|].
  rewrite !filter_cons. unfold tem_valor in Hr.
  destruct Hr as [Hr|Hr].
  - rewrite decide_True by done. rewrite decide_False; [simpl; lia|].
    unfold tem_valor. rewrite Hr. by intros [=].
  - rewrite decide_False; [|unfold tem_valor; rewrite Hr; by intros [=]].
    rewrite decide_True by done. simpl. lia.
Qed.

Lemma linhas_relatorio_ok cols (linhas : list (gmap string pyval)) :
  "cep" ∈ cols → "status" ∈ cols → "EMAIL" ∈ cols →
  ∃ ls, ∀ st, linhas_relatorio cols linhas st = (Ok ls, st).
Proof.
  intros Hcep Hstatus Hemail. induction linhas as [|row linhas [ls IH]].
  - by exists [].
  - eexists. intros st. simpl. unfold bind, series_get.
    rewrite !decide_True by done. unfold ret at 1 2 3. by rewrite IH.
Qed.

(** On a frame that has the three columns the report reads, [relatorio]
    returns, and its totals are [conta] of the two status columns. *)
Lemma relatorio_run df :
  "cep" ∈ columns df → "status" ∈ columns df → "EMAIL" ∈ columns df →
  ∃ rel,
    (∀ st, relatorio df st = (Ok rel, st))
    ∧ total_consultas_sucesso rel = length (filter (tem_valor "status" "Sucesso") (rows df))
    ∧ total_consultas_erro rel = length (filter (tem_valor "status" "Erro") (rows df))
    ∧ total_emails_sucesso rel = length (filter (tem_valor "EMAIL" "Sucesso") (rows df))
    ∧ total_emails_erro rel = length (filter (tem_valor "EMAIL" "Erro") (rows df)).
Proof.
  intros Hcep Hstatus Hemail.
  destruct (linhas_relatorio_ok (columns df) (rows df) Hcep Hstatus Hemail)
    as [ls Hls].
  eexists. split.
  - intros st. unfold relatorio, bind, column. rewrite Hls.
    rewrite !decide_True by done. reflexivity.
  - simpl. by rewrite !conta_tem_valor.
Qed.

Lemma cell_at_final df i r v :
  "EMAIL" ∈ columns df → rows df !! i = Some r →
  cell_at df i "EMAIL" = Some (PStr v) → tem_valor "EMAIL" v r.
Proof.
  intros Hin Hr. unfold cell_at, tem_valor. rewrite decide_True by done.
  rewrite Hr. simpl. destruct (r !! "EMAIL"); simpl; [congruence|by intros [=]].
Qed.

(** C5. A batch that reaches the report ([process] returned a frame that
    is not empty, [send_emails] returned): [relatorio] gives totals that
    are the numbers of rows holding ['Sucesso'] and ['Erro'] in the columns
    [status] and [EMAIL], and on each of the two columns the two totals
    add up to the number of rows. *)
Theorem relatorio_contagens input output email_senha corpo_template email_de saida
    st df st1 st2 :
  process input output st = (Ok (Some df), st1) →
  df_empty df = false →
  send_emails email_senha corpo_template email_de saida
    {| world := world st1; trace := trace st1; frame := df; msg := msg st1 |}
  = (Ok tt, st2) →
  ∃ rel,
    (∀ st3, relatorio (frame st2) st3 = (Ok rel, st3))
    ∧ total_consultas_sucesso rel
      = length (filter (tem_valor "status" "Sucesso") (rows (frame st2)))
    ∧ total_consultas_erro rel
      = length (filter (tem_valor "status" "Erro") (rows (frame st2)))
    ∧ total_emails_sucesso rel
      = length (filter (tem_valor "EMAIL" "Sucesso") (rows (frame st2)))
    ∧ total_emails_erro rel
      = length (filter (tem_valor "EMAIL" "Erro") (rows (frame st2)))
    ∧ total_consultas_sucesso rel + total_consultas_erro rel
      = length (rows (frame st2))
    ∧ total_emails_sucesso rel + total_emails_erro rel
      = length (rows (frame st2))
    ∧ length (rows (frame st2)) = length (rows df).
Proof.
  intros Hp Hne Hsend.
  destruct (process_some _ _ _ _ _ Hp) as (registros & -> & Hregs). clear Hp.
  set (df := set_column "EMAIL" (PStr "") (from_records registros)) in *.
  (* the columns of the frame *)
  assert ("EMAIL" ∈ columns df) as Hemail by (simpl; set_solver).
  assert ("status" ∈ columns df ∧ "cep" ∈ columns df) as [Hstatus Hcep].
  { destruct registros as [|reg registros]; [done|].
    apply Forall_cons in Hregs as [[Hs [v Hv]] _].
    split; simpl; apply elem_of_union_r, elem_of_union_l, elem_of_dom.
    - destruct Hs as [-> | ->]; eauto.
    - rewrite Hv. eauto. }
  (* what send_emails left *)
  pose proof (pegada_send_emails email_senha corpo_template email_de saida
                {| world := world st1; trace := trace st1;
                   frame := df; msg := msg st1 |}) as [_ Hso].
  pose proof (send_emails_escreve_email _ _ _ _ _ _ Hsend) as Hcells.
  rewrite Hsend in Hso. simpl in Hso, Hcells.
  destruct Hso as (Hc & _ & Hlen & Hrows).
  destruct (relatorio_run (frame st2)) as (rel & Hrun & H1 & H2 & H3 & H4);
    [by apply Hc..|].
  exists rel. rewrite H1, H2, H3, H4. repeat split; try done.
  - apply conta_soma, Forall_lookup. intros i r' Hr'.
    destruct (lookup_lt_is_Some_2 (rows df) i) as [r Hr].
    { rewrite <- Hlen. by eapply lookup_lt_Some. }
    destruct (Hrows i) as [_ Hcell]. specialize (Hcell "status" ltac:(done)).
    rewrite Hr', Hr in Hcell. simpl in Hcell. unfold tem_valor. rewrite Hcell.
    simpl in Hr. rewrite list_lookup_fmap in Hr.
    destruct (registros !! i) as [reg|] eqn:Hreg; [|done].
    injection Hr as <-. rewrite lookup_insert_ne by done.
    by destruct (Forall_lookup_1 _ _ _ _ Hregs Hreg) as [Hs _].
  - apply conta_soma, Forall_lookup. intros i r' Hr'.
    destruct (lookup_lt_is_Some_2 (rows df) i) as [r Hr].
    { rewrite <- Hlen. by eapply lookup_lt_Some. }
    specialize (Hcells i r Hr).
    destruct (status_sucesso r).
    + destruct Hcells as [Hv|Hv]; [left|right];
        by apply (cell_at_final (frame st2) i); [apply Hc| |].
    + right. by apply (cell_at_final (frame st2) i); [apply Hc| |].
Qed.

End Lote.

(** ** One session, call by call *)

Section Sessao.
Context {World : Type} `{!Externals World}.

Implicit Types (st : State World) (cep : gmap string pyval) (cols : gset string).

Lemma entregar_dialogo email_senha email_de index st m :
  msg st = Some m →
  ∃ d,
    sessao email_senha email_de m d
    ∧ (responde (world st) d.*1).1 = d.*2
    ∧ entregar email_senha email_de index st =
        (if completa d then Ok tt else Raise SMTPException,
         {| world := (responde (world st) d.*1).2;
            trace := trace st ++ (EvSmtp index <$> d.*1);
            frame := frame st; msg := msg st |}).
Proof.
  intros Hm.
  unfold entregar, with_SMTP, try_finally, smtp, the_msg, get_msg.
  unfold bind, call, ret, raise. cbn [world trace frame msg]. rewrite Hm.
  destruct (smtp_do (Connect "smtp.gmail.com" 587%Z) (world st)) as [[] w1] eqn:H1;
    cbn [world trace frame msg].
  2: { eexists. split; [apply sessao_sem_conexao|].
       cbn [fmap list_fmap fst snd responde]. by rewrite H1. }
  destruct (smtp_do StartTls w1) as [[] w2] eqn:H2; cbn [world trace frame msg].
  2: { destruct (smtp_do Quit w2) as [q w3] eqn:H3.
       exists [(Connect "smtp.gmail.com" 587%Z, true); (StartTls, false); (Quit, q)].
       split; [apply sessao_sem_tls|].
       cbn [fmap list_fmap fst snd responde]. rewrite H1, H2, H3.
       rewrite <- !app_assoc. by destruct q. }
  destruct (smtp_do (Login email_de email_senha) w2) as [[] w3] eqn:H3;
    cbn [world trace frame msg].
  2: { destruct (smtp_do Quit w3) as [q w4] eqn:H4.
       exists [(Connect "smtp.gmail.com" 587%Z, true); (StartTls, true);
               (Login email_de email_senha, false); (Quit, q)].
       split; [apply sessao_sem_login|].
       cbn [fmap list_fmap fst snd responde]. rewrite H1, H2, H3, H4.
       rewrite <- !app_assoc. by destruct q. }
  destruct (smtp_do (SendMessage m) w3) as [ok w4] eqn:H4;
    destruct (smtp_do Quit w4) as [q w5] eqn:H5.
  exists [(Connect "smtp.gmail.com" 587%Z, true); (StartTls, true);
          (Login email_de email_senha, true); (SendMessage m, ok); (Quit, q)].
  split; [destruct ok; [apply sessao_inteira|apply sessao_sem_envio]|].
  cbn [fmap list_fmap fst snd responde]. rewrite H1, H2, H3, H4, H5.
  destruct ok, q; cbn [world trace frame msg]; rewrite ?H5;
    cbn [world trace frame msg]; by rewrite <- !app_assoc.
Qed.

(** X10. One session of [entregar], for the message [m] held in [msg]:
    the calls are connect, STARTTLS, login, send, QUIT, each made only if
    the one before it was answered yes, but QUIT, which is made whenever
    the connection was; the answers are the relay's, the calls are the
    events the session leaves, and [entregar] returns when all five were
    answered yes and raises otherwise.  The frame and [msg] are left as
    they were. *)
Theorem entregar_sessao email_senha email_de index st m :
  msg st = Some m →
  let '(r, st') := entregar email_senha email_de index st in
  frame st' = frame st
  ∧ msg st' = msg st
  ∧ ∃ d,
      sessao email_senha email_de m d
      ∧ responde (world st) d.*1 = (d.*2, world st')
      ∧ trace st' = trace st ++ (EvSmtp index <$> d.*1)
      ∧ r = if completa d then Ok tt else Raise SMTPException.
Proof.
  intros Hm.
  destruct (entregar_dialogo email_senha email_de index st m Hm)
    as (d & Hd & Hr & ->).
  split; [done|]. split; [done|]. exists d. split; [done|].
  split; [|done]. cbn [world]. rewrite <- Hr. by destruct (responde _ _).
Qed.

Lemma personalizar_run corpo_template cols cep st :
  colunas_completas cols →
  personalizar corpo_template cols cep st = (Ok (corpo_de corpo_template cep), st).
Proof.
  intros (_ & Hcep & Hend). unfold personalizar, bind, series_get, ret.
  by rewrite !decide_True by (first [done|apply Hend; repeat constructor]).
Qed.

(** A ['Sucesso'] row, on a frame that has the columns the loop reads:
    [enviar] builds the message; if [EmailMessage] takes it, one session
    follows; the [EMAIL] cell is ['Sucesso'] when the relay said yes to
    all five calls and ['Erro'] otherwise, and [enviar] returns. *)
Lemma enviar_dialogo email_senha corpo_template email_de cols index cep st :
  colunas_completas cols →
  status_sucesso cep = true →
  ∃ d m',
    (if mensagem_aceita email_de corpo_template cep
     then sessao email_senha email_de (mensagem email_de corpo_template cep) d
     else d = [])
    ∧ (responde (world st) d.*1).1 = d.*2
    ∧ enviar email_senha corpo_template email_de cols index cep st =
        (Ok tt,
         {| world := (responde (world st) d.*1).2;
            trace := trace st ++ (EvSmtp index <$> d.*1)
                     ++ [EvLog (if completa d then INFO else ERROR); EvLog INFO];
            frame := set_at index "EMAIL"
                       (PStr (if completa d then "Sucesso" else "Erro")) (frame st);
            msg := Some m' |}).
Proof.
  intros Hcols Hs. pose proof Hcols as (Hstatus & Hcep & _).
  unfold enviar. unfold bind at 1. unfold series_get at 1.
  rewrite decide_True by done. unfold ret at 1.
  fold (status_sucesso cep). rewrite Hs.
  unfold try_finally, try_except, tentativa. unfold bind at 1.
  rewrite personalizar_run by done.
  unfold despachar, falha, set_header, set_content, the_msg, get_msg, set_msg,
    at_set, get_frame, set_frame, log, emit, series_get.
  rewrite !decide_True by done.
  unfold mensagem_aceita, mensagem, assunto.
  unfold bind, ret, raise. cbn [world trace frame msg].
  destruct (header_ok "From" email_de);
    cbn [andb world trace frame msg headers content EmailMessage].
  2: { exists [], EmailMessage. repeat split. by rewrite <- !app_assoc. }
  destruct (header_ok "To" destinatario);
    cbn [andb world trace frame msg headers content].
  2: { eexists [], _. repeat split. by rewrite <- !app_assoc. }
  destruct (header_ok "Subject" _);
    cbn [andb world trace frame msg headers content].
  2: { eexists [], _. repeat split. by rewrite <- !app_assoc. }
  destruct (content_ok _); cbn [andb world trace frame msg headers content].
  2: { eexists [], _. repeat split. by rewrite <- !app_assoc. }
  match goal with
  | |- context [entregar ?a ?b ?i ?s] =>
      destruct (entregar_dialogo a b i s _ eq_refl) as (d & Hd & Hr & ->)
  end.
  cbn [world trace frame msg] in Hr |- *.
  exists d. eexists. split; [done|]. split; [done|].
  destruct (completa d); cbn [world trace frame msg];
    by rewrite <- !app_assoc.
Qed.

End Sessao.

(** ** Running the notifier again *)

Section Reexecucao.
Context {World : Type} `{!Externals World}.

Implicit Types (st : State World) (cep : gmap string pyval) (cols : gset string).

Lemma smtp_calls_app i evs evs' :
  smtp_calls i (evs ++ evs') = smtp_calls i evs ++ smtp_calls i evs'.
Proof. apply omap_app. Qed.

Lemma smtp_calls_fmap i calls : smtp_calls i (EvSmtp i <$> calls) = calls.
Proof.
  induction calls as [|c calls IH]; [done|].
  cbn [fmap list_fmap]. change (EvSmtp i c :: ?l) with ([EvSmtp i c] ++ l).
  rewrite smtp_calls_app. fold (fmap (M:=list) (EvSmtp i) calls). rewrite IH.
  unfold smtp_calls. simpl. by rewrite decide_True.
Qed.

(** The loop reaches the row [k] after the rows before it, runs [enviar]
    on it, and goes on with the rows after it. *)
Lemma para_cada_linha email_senha corpo_template email_de cols linhas :
  colunas_completas cols →
  ∀ index st k cep,
    linhas !! k = Some cep →
    ∃ st1 st2,
      para_cada email_senha corpo_template email_de cols index (take k linhas) st
      = (Ok tt, st1)
      ∧ enviar email_senha corpo_template email_de cols (index + k) cep st1
        = (Ok tt, st2)
      ∧ para_cada email_senha corpo_template email_de cols index linhas st
        = para_cada email_senha corpo_template email_de cols (S (index + k))
            (drop (S k) linhas) st2.
Proof.
  intros Hcols. induction linhas as [|cep0 linhas IH];
    intros index st k cep Hk; [done|].
  destruct k as [|k]; simpl in Hk.
  - injection Hk as <-. rewrite Nat.add_0_r. exists st.
    pose proof (enviar_sem_excecao email_senha corpo_template email_de
                  cols index cep0 st Hcols) as Hok.
    destruct (enviar email_senha corpo_template email_de cols index cep0 st)
      as [r st2] eqn:He. simpl in Hok. subst r. exists st2.
    split; [done|]. split; [done|].
    cbn [para_cada drop]. unfold bind. by rewrite He.
  - pose proof (enviar_sem_excecao email_senha corpo_template email_de
                  cols index cep0 st Hcols) as Hok.
    destruct (enviar email_senha corpo_template email_de cols index cep0 st)
      as [r st0] eqn:He. simpl in Hok. subst r.
    destruct (IH (S index) st0 k cep Hk) as (st1 & st2 & H1 & H2 & H3).
    exists st1, st2. replace (index + S k) with (S index + k) by lia.
    split; [|split; [done|]].
    + cbn [take para_cada]. unfold bind. by rewrite He.
    + cbn [para_cada drop]. unfold bind. by rewrite He.
Qed.


End Reexecucao.

(** ** Concrete runs *)

Example normalizar_exemplo : normalizar " 01001-000 " = "01001000".
Proof. reflexivity. Qed.

(** A no-break space, an em space and a next-line character are stripped
    like the ASCII ones; the hyphen of a code is not whitespace. *)
Example normalizar_unicode :
  normalizar (utf8 160 +:+ " 01001-000" +:+ utf8 8195 +:+ utf8 133) = "01001000".
Proof. vm_compute. reflexivity. Qed.

Example replace_exemplo :
  replace "${cep}" "01001000" "CEP ${cep} - ${cidade} (${cep})"
  = "CEP 01001000 - ${cidade} (01001000)".
Proof. reflexivity. Qed.

(** A complete run on two codes: the first is resolved by ViaCEP and its
    mail is sent, the second fails on both providers. *)
Example main_exemplo :
  let out := main (estado_inicial mundo_completo) in
  out.1 = Ok tt
  ∧ http_calls (trace out.2)
    = [viacep_link "01001000"; viacep_link "00000000"; opencep_link "00000000"]
  ∧ rows (frame out.2) = [linha_ok; linha_erro]
  ∧ smtp_calls 1 (trace out.2) = []
  ∧ arquivos_escritos (trace out.2) = [output_file; output_file; output_pdf].
Proof. repeat split; vm_compute; reflexivity. Qed.

(** C7, the claim as written fails: the answer [{"cep": "01001-000"}] has
    none of the address attributes and is taken as resolved. *)
Lemma realizar_consulta_aceita_sem_endereco :
  let st := estado_inicial mundo_so_cep in
  let link := viacep_link "01001000" in
  (http_get link (world st)).1 = resposta_200 corpo_so_cep
  ∧ Forall (λ c, corpo_so_cep !! c = None) colunas_endereco
  ∧ (_realizar_consulta link "01001000" st).1
    = Ok (PDict (<["status" := PStr "Sucesso"]> corpo_so_cep)).
Proof.
  split; [reflexivity|]. split; [by repeat constructor|].
  vm_compute. reflexivity.
Qed.

(** C6, the code misses the claim.  ViaCEP answers the first code with
    [{"cep": "01001-000"}]: the record is ['Sucesso'] and the frame has no
    column [logradouro].  Filling the template raises [KeyError] before
    [msg] is bound, the handler reads [msg] and raises in turn:
    [send_emails] is left with [UnboundLocalError], no [EMAIL] cell is
    written (not for the row that failed, not for the next one), and
    neither the second spreadsheet nor the report is produced. *)
Theorem main_aborta_sem_logradouro :
  let out := main (estado_inicial mundo_so_cep) in
  out.1 = Raise (UnboundLocalError "msg")
  ∧ ("logradouro" ∉ columns (frame out.2))
  ∧ cell_at (frame out.2) 0 "status" = Some (PStr "Sucesso")
  ∧ cell_at (frame out.2) 0 "EMAIL" = Some (PStr "")
  ∧ cell_at (frame out.2) 1 "status" = Some (PStr "Erro")
  ∧ cell_at (frame out.2) 1 "EMAIL" = Some (PStr "")
  ∧ smtp_calls 0 (trace out.2) = []
  ∧ arquivos_escritos (trace out.2) = [output_file].
Proof.
  repeat split; try (vm_compute; reflexivity).
  intros Hin. vm_compute in Hin. discriminate.
Qed.

(** C2, the code misses the claim, by the defect of C6.  In the batch
    [process] builds in the second world the row 0 is ['Sucesso'] and has
    no [logradouro], the row 1 is ['Erro'].  [send_emails] is left with
    [UnboundLocalError] at the row 0 and never reaches the row 1: no SMTP
    call is made for it, and its [EMAIL] is not set to ['Erro'], it still
    holds the empty string. *)
Theorem send_emails_erro_sem_registro :
  let st := antes_envio_so_cep in
  let out := send_emails "senha de app" "<p>${cep}</p>" email_de output_file st in
  process input_file output_file (estado_inicial mundo_so_cep)
  = (Ok (Some (frame st)), apos_process_so_cep)
  ∧ length (rows (frame st)) = 2
  ∧ cell_at (frame st) 0 "status" = Some (PStr "Sucesso")
  ∧ cell_at (frame st) 1 "status" = Some (PStr "Erro")
  ∧ out.1 = Raise (UnboundLocalError "msg")
  ∧ cell_at (frame out.2) 1 "EMAIL" = Some (PStr "")
  ∧ smtp_calls 1 (trace out.2) = [].
Proof.
  intros st out.
  repeat (split; [vm_compute; reflexivity|]).
  vm_compute. reflexivity.
Qed.


(** ** The theorems at concrete inputs *)

Lemma process_sem_coluna_cep_witness :
  let st := estado_inicial mundo_sem_coluna in
  let ocorrido := [EvReadCsv input_file; EvLog ERROR; EvLog INFO] in
  csv_read input_file (world st) = (Ok entrada_sem_cep, mundo_sem_coluna)
  ∧ ("CEP" ∉ columns entrada_sem_cep)
  ∧ process input_file output_file st =
      (Ok None,
       {| world := mundo_sem_coluna; trace := trace st ++ ocorrido;
          frame := frame st; msg := msg st |})
  ∧ main st =
      (Raise AttributeError,
       {| world := mundo_sem_coluna; trace := trace st ++ ocorrido ++ [EvLog ERROR];
          frame := frame st; msg := msg st |})
  ∧ http_calls ocorrido = []
  ∧ arquivos_escritos ocorrido = [].
Proof.
  intros st ocorrido.
  assert (csv_read input_file (world st) = (Ok entrada_sem_cep, mundo_sem_coluna))
    as H1 by reflexivity.
  assert ("CEP" ∉ columns entrada_sem_cep) as H2.
  { intros Hin. vm_compute in Hin. discriminate. }
  split; [exact H1|]. split; [exact H2|].
  exact (process_sem_coluna_cep st entrada_sem_cep mundo_sem_coluna H1 H2).
Defined.

Lemma relatorio_contagens_witness :
  process input_file output_file (estado_inicial mundo_completo)
  = (Ok (Some lote_processado), apos_process)
  ∧ df_empty lote_processado = false
  ∧ send_emails "senha de app" "<p>${cep}</p>" email_de output_file antes_envio
    = (Ok tt, apos_envio)
  ∧ ∃ rel,
      (∀ st3, relatorio (frame apos_envio) st3 = (Ok rel, st3))
      ∧ total_consultas_sucesso rel
        = length (filter (tem_valor "status" "Sucesso") (rows (frame apos_envio)))
      ∧ total_consultas_erro rel
        = length (filter (tem_valor "status" "Erro") (rows (frame apos_envio)))
      ∧ total_emails_sucesso rel
        = length (filter (tem_valor "EMAIL" "Sucesso") (rows (frame apos_envio)))
      ∧ total_emails_erro rel
        = length (filter (tem_valor "EMAIL" "Erro") (rows (frame apos_envio)))
      ∧ total_consultas_sucesso rel + total_consultas_erro rel
        = length (rows (frame apos_envio))
      ∧ total_emails_sucesso rel + total_emails_erro rel
        = length (rows (frame apos_envio))
      ∧ length (rows (frame apos_envio)) = length (rows lote_processado).
Proof.
  assert (process input_file output_file (estado_inicial mundo_completo)
          = (Ok (Some lote_processado), apos_process)) as H1
    by (vm_compute; reflexivity).
  assert (df_empty lote_processado = false) as H2 by (vm_compute; reflexivity).
  assert (send_emails "senha de app" "<p>${cep}</p>" email_de output_file antes_envio
          = (Ok tt, apos_envio)) as H3 by (vm_compute; reflexivity).
  split; [exact H1|]. split; [exact H2|]. split; [exact H3|].
  exact (relatorio_contagens input_file output_file "senha de app" "<p>${cep}</p>"
           email_de output_file (estado_inicial mundo_completo)
           lote_processado apos_process apos_envio H1 H2 H3).
Defined.


Lemma entregar_sessao_witness :
  let st := estado_com_mensagem in
  msg st = Some EmailMessage
  ∧ let '(r, st') := entregar "senha de app" email_de 0 st in
    frame st' = frame st
    ∧ msg st' = msg st
    ∧ ∃ d,
        sessao "senha de app" email_de EmailMessage d
        ∧ responde (world st) d.*1 = (d.*2, world st')
        ∧ trace st' = trace st ++ (EvSmtp 0 <$> d.*1)
        ∧ r = if completa d then Ok tt else Raise SMTPException.
Proof.
  intros st.
  assert (msg st = Some EmailMessage) as H1 by reflexivity.
  pose proof (entregar_sessao "senha de app" email_de 0 st EmailMessage H1) as H2.
  split; [exact H1|exact H2].
Defined.

(** ** Normalization of a code *)

Lemma replace_hifen_cons a s :
  replace "-" "" (String a s) =
  if Ascii.eqb hifen a then replace "-" "" s else String a (replace "-" "" s).
Proof.
  unfold replace. cbn [replace_from String.prefix String.length Nat.pred].
  fold hifen. destruct (Ascii.ascii_dec hifen a) as [<-|Hne].
  - rewrite Ascii.eqb_refl. by destruct s.
  - by rewrite (proj2 (Ascii.eqb_neq _ _) Hne).
Qed.

Lemma replace_hifen_ocorre s : ocorre hifen (replace "-" "" s) = false.
Proof.
  induction s as [|a s IH]; [done|]. rewrite replace_hifen_cons.
  destruct (Ascii.eqb hifen a) eqn:Ha; [done|]. cbn [ocorre]. by rewrite Ha.
Qed.

Lemma replace_hifen_id s : ocorre hifen s = false → replace "-" "" s = s.
Proof.
  induction s as [|a s IH]; [done|]. cbn [ocorre]. rewrite replace_hifen_cons.
  destruct (Ascii.eqb hifen a); [done|]. intros Hs. by rewrite IH.
Qed.

Lemma py_isspace_espacos c : py_isspace c = true ↔ c ∈ espacos.
Proof.
  unfold py_isspace. rewrite existsb_exists, list_elem_of_In. split.
  - by intros (e & He & ->%String.eqb_eq).
  - intros He. exists c. by rewrite String.eqb_refl.
Qed.

Lemma append_cons a (s t : string) : String a s +:+ t = String a (s +:+ t).
Proof. reflexivity. Qed.

Lemma append_nil (t : string) : "" +:+ t = t.
Proof. reflexivity. Qed.

Lemma length_append (s t : string) :
  String.length (s +:+ t) = (String.length s + String.length t)%nat.
Proof.
  induction s as [|a s IH]; [done|]. rewrite append_cons.
  cbn [String.length]. by rewrite IH.
Qed.

Lemma append_assoc (s t u : string) : (s +:+ t) +:+ u = s +:+ (t +:+ u).
Proof. induction s as [|a s IH]; [done|]. by rewrite !append_cons, IH. Qed.

Lemma append_vazio (s : string) : s +:+ "" = s.
Proof. induction s as [|a s IH]; [done|]. by rewrite append_cons, IH. Qed.

Lemma ocorre_append a s t : ocorre a (s +:+ t) = ocorre a s || ocorre a t.
Proof.
  induction s as [|b s IH]; [done|]. rewrite append_cons. cbn [ocorre].
  by destruct (Ascii.eqb a b).
Qed.

Lemma por_comprimento (P : string → Prop) :
  (∀ s, (∀ t, (String.length t < String.length s)%nat → P t) → P s) → ∀ s, P s.
Proof.
  intros H s. remember (String.length s) as n eqn:Hn.
  revert s Hn. induction (lt_wf n) as [n _ IH]. intros s ->.
  apply H. intros t Ht. by apply (IH _ Ht).
Qed.

Lemma lstrip_espaco e w : e ∈ espacos → lstrip (e +:+ w) = lstrip w.
Proof.
  unfold espacos, espacos_unicode. intros He.
  repeat (apply elem_of_cons in He as [->|He]; [vm_compute; reflexivity|]).
  by apply elem_of_nil in He.
Qed.

Lemma comeca_em_branco_espaco e t : e ∈ espacos → comeca_em_branco (e +:+ t) = true.
Proof.
  unfold espacos, espacos_unicode. intros He.
  repeat (apply elem_of_cons in He as [->|He]; [vm_compute; reflexivity|]).
  by apply elem_of_nil in He.
Qed.

Lemma comeca_em_branco_inv s :
  comeca_em_branco s = true → ∃ e t, e ∈ espacos ∧ s = e +:+ t.
Proof.
  destruct s as [|a s1]; [done|]. cbn [comeca_em_branco].
  destruct (py_isspace (String a "")) eqn:H1.
  { intros _. exists (String a ""), s1. by rewrite <- py_isspace_espacos. }
  destruct s1 as [|b s2]; [done|]. cbn [orb].
  destruct (py_isspace (String a (String b ""))) eqn:H2.
  { intros _. exists (String a (String b "")), s2. by rewrite <- py_isspace_espacos. }
  destruct s2 as [|c s3]; [done|]. cbn [orb]. intros H3.
  exists (String a (String b (String c ""))), s3. by rewrite <- py_isspace_espacos.
Qed.

Lemma lstrip_fixo s : comeca_em_branco s = false → lstrip s = s.
Proof.
  destruct s as [|a s1]; [done|]. cbn [comeca_em_branco lstrip].
  destruct (py_isspace (String a "")); [done|].
  destruct s1 as [|b s2]; [done|]. cbn [orb].
  destruct (py_isspace (String a (String b ""))); [done|].
  destruct s2 as [|c s3]; [done|]. cbn [orb]. by intros ->.
Qed.

Lemma espacos_nao_vazio e : e ∈ espacos → e ≠ "".
Proof.
  unfold espacos, espacos_unicode. intros He ->.
  repeat (apply elem_of_cons in He as [He|He]; [by vm_compute in He|]).
  by apply elem_of_nil in He.
Qed.

Lemma espacos_encurta e t :
  e ∈ espacos → (String.length t < String.length (e +:+ t))%nat.
Proof.
  intros He%espacos_nao_vazio. rewrite length_append.
  destruct e; [done|]. cbn [String.length]. lia.
Qed.

Lemma lstrip_brancos s : ∃ w, brancos w ∧ s = w +:+ lstrip s.
Proof.
  induction s as [s IH] using por_comprimento.
  destruct (comeca_em_branco s) eqn:Hs.
  - destruct (comeca_em_branco_inv s Hs) as (e & t & He & ->).
    destruct (IH t (espacos_encurta e t He)) as (w & Hw & Ht).
    exists (e +:+ w). split; [by constructor|].
    rewrite lstrip_espaco by done. by rewrite append_assoc, <- Ht.
  - exists "". split; [constructor|]. by rewrite lstrip_fixo.
Qed.

Lemma lstrip_comeca s : comeca_em_branco (lstrip s) = false.
Proof.
  induction s as [s IH] using por_comprimento.
  destruct (comeca_em_branco s) eqn:Hs; [|by rewrite lstrip_fixo].
  destruct (comeca_em_branco_inv s Hs) as (e & t & He & ->).
  rewrite lstrip_espaco by done. by apply IH, espacos_encurta.
Qed.

Lemma brancos_lstrip w : brancos w → lstrip w = "".
Proof. induction 1 as [|e w He _ IH]; [done|]. by rewrite lstrip_espaco. Qed.

Lemma brancos_append v w : brancos v → brancos w → brancos (v +:+ w).
Proof.
  induction 1 as [|e v He _ IH]; [done|]. intros Hw.
  rewrite append_assoc. constructor; auto.
Qed.

Lemma lstrip_vazio_brancos s : lstrip s = "" → brancos s.
Proof.
  intros Hs. destruct (lstrip_brancos s) as (w & Hw & Heq).
  rewrite Hs, append_vazio in Heq. by subst.
Qed.

(** A non-empty run of whitespace ends with a whitespace character. *)
Lemma brancos_fim w : brancos w → w ≠ "" → ∃ t e, e ∈ espacos ∧ w = t +:+ e.
Proof.
  induction 1 as [|e w He Hw IH]; [done|]. intros _.
  destruct w as [|a w'].
  - exists "", e. by rewrite append_vazio.
  - destruct IH as (t & e' & He' & Heq); [done|].
    exists (e +:+ t), e'. by rewrite append_assoc, <- Heq.
Qed.

Lemma rstrip_brancos s : ∃ w, brancos w ∧ s = rstrip s +:+ w.
Proof.
  induction s as [|a s IH]; [exists ""; split; [constructor|done]|].
  cbn [rstrip]. destruct (String.eqb_spec (lstrip (String a s)) "") as [Hl|Hl].
  - exists (String a s). split; [by apply lstrip_vazio_brancos|done].
  - destruct IH as (w & Hw & Heq). exists w. split; [done|].
    rewrite append_cons. by f_equal.
Qed.

Lemma rstrip_sem_sufixo s e t : e ∈ espacos → rstrip s ≠ t +:+ e.
Proof.
  intros He. revert t. induction s as [|a s IH]; intros t.
  - cbn [rstrip]. intros Heq. apply (espacos_nao_vazio e He).
    destruct t; [done|discriminate].
  - cbn [rstrip]. destruct (String.eqb_spec (lstrip (String a s)) "") as [Hl|Hl].
    + intros Heq. apply (espacos_nao_vazio e He). destruct t; [done|discriminate].
    + destruct t as [|b t].
      * intros Heq. apply Hl.
        destruct (rstrip_brancos s) as (w & Hw & Hs).
        assert (String a s = e +:+ w) as ->.
        { change ("" +:+ e) with e in Heq. rewrite <- Heq, append_cons.
          by f_equal. }
        rewrite lstrip_espaco by done. by apply brancos_lstrip.
      * rewrite append_cons. intros [= _ Heq]. by apply (IH t).
Qed.

Lemma lstrip_sem_prefixo s e t : e ∈ espacos → lstrip s ≠ e +:+ t.
Proof.
  intros He Heq. pose proof (lstrip_comeca s) as Hs.
  by rewrite Heq, comeca_em_branco_espaco in Hs.
Qed.

Lemma lstrip_id s : (∀ e t, e ∈ espacos → s ≠ e +:+ t) → lstrip s = s.
Proof.
  intros Hs. apply lstrip_fixo. destruct (comeca_em_branco s) eqn:Hc; [|done].
  destruct (comeca_em_branco_inv s Hc) as (e & t & He & Heq).
  by destruct (Hs e t He).
Qed.

Lemma rstrip_id s : (∀ e t, e ∈ espacos → s ≠ t +:+ e) → rstrip s = s.
Proof.
  induction s as [|a s IH]; [done|]. intros Hs. cbn [rstrip].
  destruct (String.eqb_spec (lstrip (String a s)) "") as [Hl|Hl].
  - destruct (brancos_fim (String a s)) as (t & e & He & Heq);
      [by apply lstrip_vazio_brancos|done|].
    by destruct (Hs e t He).
  - f_equal. apply IH. intros e t He ->.
    apply (Hs e (String a t) He). by rewrite append_cons.
Qed.

Lemma sem_ocorre a s : ocorre a (sem a s) = false.
Proof.
  induction s as [|b s IH]; [done|]. cbn [sem].
  destruct (Ascii.eqb a b) eqn:Hab; [done|]. cbn [ocorre]. by rewrite Hab.
Qed.

Lemma sem_id a s : ocorre a s = false → sem a s = s.
Proof.
  induction s as [|b s IH]; [done|]. cbn [ocorre sem].
  destruct (Ascii.eqb a b); [done|]. intros Hs. by rewrite IH.
Qed.

(** [strip] takes a run of whitespace from each end, and all of it. *)
Lemma strip_forma s :
  (∃ antes depois,
     brancos antes ∧ brancos depois ∧ s = antes +:+ strip s +:+ depois)
  ∧ (∀ e t, e ∈ espacos → strip s ≠ e +:+ t ∧ strip s ≠ t +:+ e).
Proof.
  unfold strip.
  destruct (lstrip_brancos s) as (antes & Ha & Hs).
  destruct (rstrip_brancos (lstrip s)) as (depois & Hd & Hl).
  split.
  - exists antes, depois. split; [done|]. split; [done|]. by rewrite <- Hl.
  - intros e t He. split; [|by apply rstrip_sem_sufixo].
    intros Heq. apply (lstrip_sem_prefixo s e (t +:+ depois) He).
    by rewrite Hl, Heq, append_assoc.
Qed.

Lemma replace_hifen_sem s : replace "-" "" s = sem hifen s.
Proof.
  induction s as [|a s IH]; [done|]. rewrite replace_hifen_cons. cbn [sem].
  by rewrite IH.
Qed.

(** X1. The code [consultar_cep] works with is the input without its
    hyphens and without the whitespace around it: it has no hyphen, it is
    what is left of the hyphen-free input once a run of whitespace
    characters is taken from each end, it neither starts nor ends with a
    whitespace character, and normalizing it again changes nothing. *)
Theorem normalizar_forma cep :
  ocorre hifen (normalizar cep) = false
  ∧ (∃ antes depois,
       brancos antes ∧ brancos depois
       ∧ sem hifen cep = antes +:+ normalizar cep +:+ depois)
  ∧ (∀ e t, e ∈ espacos →
            normalizar cep ≠ e +:+ t ∧ normalizar cep ≠ t +:+ e)
  ∧ normalizar (normalizar cep) = normalizar cep.
Proof.
  unfold normalizar at 1 2 3 4. rewrite replace_hifen_sem.
  destruct (strip_forma (sem hifen cep)) as [(antes & depois & Ha & Hd & Heq) Hfim].
  assert (ocorre hifen (strip (sem hifen cep)) = false) as Hh.
  { pose proof (sem_ocorre hifen cep) as Hs. rewrite Heq in Hs.
    rewrite !ocorre_append in Hs.
    by destruct (ocorre hifen antes), (ocorre hifen (strip (sem hifen cep))). }
  split; [done|]. split; [by exists antes, depois|]. split; [done|].
  unfold normalizar. rewrite !replace_hifen_sem.
  rewrite (sem_id hifen (strip (sem hifen cep)) Hh).
  unfold strip at 1. fold (strip (sem hifen cep)).
  rewrite lstrip_id by (intros e t He; apply (Hfim e t He)).
  apply rstrip_id. intros e t He. apply (Hfim e t He).
Qed.

(** ** More on the batch pipeline *)

Section LoteMais.
Context {World : Type} `{!Externals World}.

Implicit Types (st : State World) (df : DataFrame).

Lemma consultar_cep_pegada cep st :
  let st' := (consultar_cep cep st).2 in
  ∃ evs,
    trace st' = trace st ++ evs
    ∧ Forall evento_de_consulta evs
    ∧ (1 ≤ length (http_calls evs) ≤ 2)%nat
    ∧ frame st' = frame st ∧ msg st' = msg st.
Proof.
  rewrite consultar_cep_run. cbv zeta.
  destruct (http_get (viacep_link (normalizar cep)) (world st)) as [r1 w1].
  destruct (corpo_aceito r1) as [d1|].
  - eexists. split; [reflexivity|]. simpl. repeat split; try lia.
    by repeat constructor.
  - destruct (http_get (opencep_link (normalizar cep)) w1) as [r2 w2].
    destruct (corpo_aceito r2) as [d2|];
      (eexists; split; [reflexivity|]; simpl; repeat split; try lia;
       by repeat constructor).
Qed.

Lemma consultar_todos_pegada ceps :
  ∀ acc st,
    let st' := (consultar_todos ceps acc st).2 in
    ∃ evs,
      trace st' = trace st ++ evs
      ∧ Forall evento_de_consulta evs
      ∧ (length ceps ≤ length (http_calls evs) ≤ 2 * length ceps)%nat
      ∧ frame st' = frame st ∧ msg st' = msg st.
Proof.
  induction ceps as [|cep ceps IH]; intros acc st; simpl.
  - exists []. rewrite app_nil_r. repeat split; simpl; try lia. constructor.
  - unfold bind, log, emit. simpl.
    match goal with
    | |- context [consultar_cep ?c ?s] =>
        destruct (consultar_cep_pegada c s) as (evs1 & Ht1 & He1 & Hn1 & Hf1 & Hm1);
        destruct (consultar_cep_registro c s) as (d & Hd & _);
        destruct (consultar_cep c s) as [r st1]
    end.
    simpl in *. subst r.
    destruct (IH (acc ++ [PDict d]) st1) as (evs2 & Ht2 & He2 & Hn2 & Hf2 & Hm2).
    exists (EvLog INFO :: evs1 ++ evs2).
    rewrite Ht2, Ht1, Hf2, Hf1, Hm2, Hm1, <- !app_assoc. split; [done|].
    split; [constructor; [done|by apply Forall_app]|].
    change (EvLog INFO :: evs1 ++ evs2) with ([EvLog INFO] ++ evs1 ++ evs2).
    rewrite !http_calls_app, !length_app. simpl. repeat split; lia.
Qed.

(** [process] on an input that has the column ['CEP'], written out. *)
Lemma process_run_ok input output st entrada w :
  csv_read input (world st) = (Ok entrada, w) →
  "CEP" ∈ columns entrada →
  ∃ registros evs w2,
    length registros = length (rows entrada)
    ∧ Forall registro_ok registros
    ∧ Forall evento_de_consulta evs
    ∧ (length (rows entrada) ≤ length (http_calls evs) ≤ 2 * length (rows entrada))%nat
    ∧ process input output st =
      let df := lote_de registros in
      let '(ok, w3) := excel_write output df w2 in
      (if ok then Ok (Some df) else Ok None,
       {| world := w3;
          trace := trace st ++ [EvReadCsv input] ++ evs
                   ++ [EvToExcel output df;
                       EvLog (if ok then INFO else ERROR); EvLog INFO];
          frame := frame st; msg := msg st |}).
Proof.
  intros Hcsv Hcol.
  unfold process, try_finally, try_except, bind at 1 2, read_csv, bind, call.
  rewrite Hcsv. simpl. rewrite decide_True by done. simpl.
  unfold column. rewrite decide_True by done. unfold ret at 1.
  match goal with
  | |- context [consultar_todos ?c ?a ?s] =>
      destruct (consultar_todos_ok c a s) as (novos & Hn & Hlen & Hall);
      destruct (consultar_todos_pegada c a s) as (evs & Ht & Hevs & Hcalls & Hf & Hm);
      destruct (consultar_todos c a s) as [r st2]
  end.
  simpl in *. subst r. rewrite length_fmap in Hlen, Hcalls.
  destruct (records_of_ok (World:=World) novos Hall)
    as (registros & Hrun & Hlen' & Hregs).
  rewrite Hrun. exists registros, evs, (world st2).
  split; [congruence|]. split; [done|]. split; [done|]. split; [done|].
  unfold lote_de, to_excel, bind, call.
  destruct (excel_write _ _ _) as [[] w3]; simpl;
    by rewrite Ht, Hf, Hm, <- !app_assoc.
Qed.

Lemma process_run_sem_arquivo input output st e w :
  csv_read input (world st) = (Raise e, w) →
  process input output st =
    (Ok None,
     {| world := w; trace := trace st ++ [EvReadCsv input; EvLog ERROR; EvLog INFO];
        frame := frame st; msg := msg st |}).
Proof.
  intros Hcsv.
  unfold process, try_finally, try_except, bind at 1 2, read_csv, bind, call.
  rewrite Hcsv. simpl. by rewrite <- !app_assoc.
Qed.

Lemma process_run_sem_coluna input output st entrada w :
  csv_read input (world st) = (Ok entrada, w) →
  "CEP" ∉ columns entrada →
  process input output st =
    (Ok None,
     {| world := w; trace := trace st ++ [EvReadCsv input; EvLog ERROR; EvLog INFO];
        frame := frame st; msg := msg st |}).
Proof.
  intros Hcsv Hcol.
  unfold process, try_finally, try_except, bind at 1 2, read_csv, bind, call.
  rewrite Hcsv. simpl. rewrite decide_False by done. simpl.
  by rewrite <- !app_assoc.
Qed.

Lemma consulta_sem_arquivos evs :
  Forall evento_de_consulta evs → arquivos_escritos evs = [].
Proof.
  induction 1 as [|e evs He _ IH]; [done|].
  change (e :: evs) with ([e] ++ evs). unfold arquivos_escritos in *.
  rewrite omap_app, IH, app_nil_r. by destruct e.
Qed.

(** X2. [process] catches whatever is raised inside it: it returns a
    frame or [None], and never raises. *)
Theorem process_nunca_levanta input output st :
  (process input output st).1 = Ok None
  ∨ ∃ df, (process input output st).1 = Ok (Some df).
Proof.
  destruct (csv_read input (world st)) as [[entrada|e] w] eqn:Hcsv.
  - destruct (decide ("CEP" ∈ columns entrada)) as [Hcol|Hcol].
    + destruct (process_run_ok input output st entrada w Hcsv Hcol)
        as (registros & evs & w2 & _ & _ & _ & _ & ->). simpl.
      destruct (excel_write _ _ _) as [[] w3]; simpl; eauto.
    + left. by rewrite (process_run_sem_coluna input output st entrada w Hcsv Hcol).
  - left. by rewrite (process_run_sem_arquivo input output st e w Hcsv).
Qed.

Lemma process_some_completo input output st df st1 :
  process input output st = (Ok (Some df), st1) →
  ∃ entrada w evs,
    csv_read input (world st) = (Ok entrada, w)
    ∧ "CEP" ∈ columns entrada
    ∧ length (rows df) = length (rows entrada)
    ∧ "EMAIL" ∈ columns df
    ∧ Forall (λ r, r !! "EMAIL" = Some (PStr "")
                   ∧ (tem_valor "status" "Sucesso" r ∨ tem_valor "status" "Erro" r)
                   ∧ is_Some (r !! "cep")) (rows df)
    ∧ trace st1 = trace st ++ evs ++ [EvToExcel output df; EvLog INFO; EvLog INFO]
    ∧ arquivos_escritos evs = [].
Proof.
  intros Hp.
  destruct (csv_read input (world st)) as [[entrada|e] w] eqn:Hcsv.
  2: { by rewrite (process_run_sem_arquivo input output st e w Hcsv) in Hp. }
  destruct (decide ("CEP" ∈ columns entrada)) as [Hcol|Hcol].
  2: { by rewrite (process_run_sem_coluna input output st entrada w Hcsv Hcol) in Hp. }
  destruct (process_run_ok input output st entrada w Hcsv Hcol)
    as (registros & evs & w2 & Hlen & Hregs & Hevs & _ & Hrun).
  rewrite Hrun in Hp. simpl in Hp.
  destruct (excel_write _ _ _) as [[] w3]; [|done].
  injection Hp as <- <-. exists entrada, w, (EvReadCsv input :: evs).
  split; [done|]. split; [done|]. simpl.
  split; [by rewrite length_fmap|]. split; [set_solver|].
  split; [|split; [done|by apply consulta_sem_arquivos]].
  apply Forall_fmap. eapply Forall_impl; [exact Hregs|].
  intros r [Hs Hc]. simpl. rewrite lookup_insert_eq.
  unfold tem_valor. by rewrite !lookup_insert_ne.
Qed.

(** X3. When [process] returns a frame, the input was read and had the
    column ['CEP']; the frame has one row per input row, each with a
    [cep], a status ['Sucesso'] or ['Erro'] and an empty [EMAIL]; and the
    frame had been written to the output file, once, before returning. *)
Theorem process_lote input output st df st1 :
  process input output st = (Ok (Some df), st1) →
  ∃ entrada w evs,
    csv_read input (world st) = (Ok entrada, w)
    ∧ "CEP" ∈ columns entrada
    ∧ length (rows df) = length (rows entrada)
    ∧ "EMAIL" ∈ columns df
    ∧ Forall (λ r, r !! "EMAIL" = Some (PStr "")
                   ∧ (tem_valor "status" "Sucesso" r ∨ tem_valor "status" "Erro" r)
                   ∧ is_Some (r !! "cep")) (rows df)
    ∧ trace st1 = trace st ++ evs ++ [EvToExcel output df; EvLog INFO; EvLog INFO]
    ∧ arquivos_escritos evs = [].
Proof. apply process_some_completo. Qed.

(** X4. When the input file cannot be read, [process] logs the error and
    returns [None]: no link is requested and no file is written. *)
Theorem process_sem_arquivo input output st e w :
  csv_read input (world st) = (Raise e, w) →
  let ocorrido := [EvReadCsv input; EvLog ERROR; EvLog INFO] in
  process input output st =
    (Ok None,
     {| world := w; trace := trace st ++ ocorrido;
        frame := frame st; msg := msg st |})
  ∧ http_calls ocorrido = []
  ∧ arquivos_escritos ocorrido = [].
Proof.
  intros Hcsv ocorrido. split; [|done].
  by apply (process_run_sem_arquivo input output st e w).
Qed.

(** X5. On an input that has the column ['CEP'], [process] requests at
    least one and at most two links per input row, whatever the providers
    answer. *)
Theorem process_consultas input output st entrada w :
  csv_read input (world st) = (Ok entrada, w) →
  "CEP" ∈ columns entrada →
  ∃ evs,
    trace (process input output st).2 = trace st ++ evs
    ∧ (length (rows entrada) ≤ length (http_calls evs)
       ≤ 2 * length (rows entrada))%nat.
Proof.
  intros Hcsv Hcol.
  destruct (process_run_ok input output st entrada w Hcsv Hcol)
    as (registros & evs & w2 & _ & _ & _ & Hn & ->). cbv zeta.
  destruct (excel_write _ _ _) as [ok w3]. cbn [snd trace].
  eexists. split; [reflexivity|]. rewrite !http_calls_app, !length_app.
  change (length (http_calls [EvReadCsv input])) with 0.
  change (length (http_calls [EvToExcel output (lote_de registros);
                              EvLog (if ok then INFO else ERROR); EvLog INFO]))
    with 0.
  lia.
Qed.

(** X6. When [process] returns [None] on an input that has the column
    ['CEP'], every row had been looked up and the write of the whole batch
    had been attempted: the failure of the write is logged, not raised,
    and the batch is dropped. *)
Theorem process_perde_lote input output st entrada w :
  csv_read input (world st) = (Ok entrada, w) →
  "CEP" ∈ columns entrada →
  (process input output st).1 = Ok None →
  ∃ registros evs,
    length registros = length (rows entrada)
    ∧ Forall registro_ok registros
    ∧ (length (rows entrada) ≤ length (http_calls evs))%nat
    ∧ trace (process input output st).2 =
        trace st ++ [EvReadCsv input] ++ evs
        ++ [EvToExcel output (lote_de registros); EvLog ERROR; EvLog INFO].
Proof.
  intros Hcsv Hcol.
  destruct (process_run_ok input output st entrada w Hcsv Hcol)
    as (registros & evs & w2 & Hlen & Hregs & _ & Hn & ->). simpl.
  destruct (excel_write _ _ _) as [[] w3]; simpl; [done|].
  intros _. exists registros, evs. repeat split; try done. lia.
Qed.

(** X7. Whenever [process] returns [None], [main] fails on [None.empty]
    with [AttributeError]: it logs the failure and does nothing else (no
    file read, no mail, no report). *)
Theorem main_sem_lote st :
  (process input_file output_file st).1 = Ok None →
  let st1 := (process input_file output_file st).2 in
  main st =
    (Raise AttributeError,
     {| world := world st1; trace := trace st1 ++ [EvLog ERROR];
        frame := frame st1; msg := msg st1 |}).
Proof.
  intros Hp. unfold main, try_except, bind.
  destruct (process input_file output_file st) as [r st1]. simpl in *.
  by subst r.
Qed.

(** X8. An input with the column ['CEP'] and no rows: [main] writes the
    empty batch and stops; it requests no link, reads neither the
    password nor the template, sends nothing and prints no report. *)
Theorem main_entrada_vazia st entrada w :
  csv_read input_file (world st) = (Ok entrada, w) →
  "CEP" ∈ columns entrada →
  rows entrada = [] →
  let '(ok, w') := excel_write output_file (lote_de []) w in
  main st =
    (if ok then Ok tt else Raise AttributeError,
     {| world := w';
        trace := trace st ++ [EvReadCsv input_file;
                              EvToExcel output_file (lote_de []);
                              EvLog (if ok then INFO else ERROR); EvLog INFO;
                              EvLog (if ok then INFO else ERROR)];
        frame := frame st; msg := msg st |}).
Proof.
  intros Hcsv Hcol Hrows.
  unfold main, try_except, bind at 1.
  unfold process, try_finally, try_except, bind at 1 2, read_csv, bind, call.
  rewrite Hcsv. simpl. rewrite decide_True by done. simpl.
  unfold column. rewrite decide_True by done. rewrite Hrows. simpl.
  unfold to_excel, bind, call, lote_de. simpl.
  destruct (excel_write _ _ _) as [[] w']; simpl; by rewrite <- !app_assoc.
Qed.

(** X9. When [process] returned a batch that is not empty and the
    password file cannot be read, [main] raises that error: the batch
    stays as [process] wrote it, no session is opened, no report is
    printed. *)
Theorem main_sem_senha st df st1 e w :
  process input_file output_file st = (Ok (Some df), st1) →
  df_empty df = false →
  text_read pass_file (world st1) = (Raise e, w) →
  main st =
    (Raise e,
     {| world := w; trace := trace st1 ++ [EvReadText pass_file; EvLog ERROR];
        frame := df; msg := msg st1 |}).
Proof.
  intros Hp Hne Htext. unfold main, try_except, bind at 1. rewrite Hp.
  rewrite Hne. unfold set_frame, read_text, call. unfold bind.
  cbn [world trace frame msg]. rewrite Htext.
  unfold raise, log, emit, bind. cbn [world trace frame msg].
  by rewrite <- !app_assoc.
Qed.

End LoteMais.

(** ** More on the notifier and the report *)

Section NotificadorMais.
Context {World : Type} `{!Externals World}.

Implicit Types (st : State World) (cep : gmap string pyval) (cols : gset string).

Lemma entregar_chamadas email_senha email_de index st :
  let '(r, st') := entregar email_senha email_de index st in
  let conecta := Connect "smtp.gmail.com" 587%Z in
  let login := Login email_de email_senha in
  frame st' = frame st
  ∧ msg st' = msg st
  ∧ ∃ calls,
      trace st' = trace st ++ (EvSmtp index <$> calls)
      ∧ (calls = [conecta]
         ∨ calls = [conecta; StartTls; Quit]
         ∨ calls = [conecta; StartTls; login; Quit]
         ∨ ∃ m, msg st = Some m
                ∧ calls = [conecta; StartTls; login; SendMessage m; Quit])
      ∧ (r = Ok tt →
         ∃ m, msg st = Some m
              ∧ calls = [conecta; StartTls; login; SendMessage m; Quit]).
Proof.
  unfold entregar, with_SMTP, try_finally, smtp, the_msg, get_msg.
  unfold bind, call, ret, raise. cbn [world trace frame msg].
  destruct (smtp_do (Connect _ _) (world st)) as [[] w1]; cbn [world trace frame msg].
  2: { repeat split. exists [Connect "smtp.gmail.com" 587%Z]. split; [done|].
       split; [by left|done]. }
  destruct (smtp_do StartTls w1) as [[] w2]; cbn [world trace frame msg].
  2: { destruct (smtp_do Quit w2) as [[] w3]; cbn [world trace frame msg];
         repeat split; exists [Connect "smtp.gmail.com" 587%Z; StartTls; Quit];
         (split; [by rewrite <- !app_assoc|]); (split; [by right; left|done]). }
  destruct (smtp_do (Login _ _) w2) as [[] w3]; cbn [world trace frame msg].
  2: { destruct (smtp_do Quit w3) as [[] w4]; cbn [world trace frame msg];
         repeat split;
         exists [Connect "smtp.gmail.com" 587%Z; StartTls;
                 Login email_de email_senha; Quit];
         (split; [by rewrite <- !app_assoc|]);
         (split; [by right; right; left|done]). }
  destruct (msg st) as [m|] eqn:Hm; cbn [world trace frame msg].
  2: { destruct (smtp_do Quit w3) as [[] w4]; cbn [world trace frame msg];
         repeat split;
         exists [Connect "smtp.gmail.com" 587%Z; StartTls;
                 Login email_de email_senha; Quit];
         (split; [by rewrite <- !app_assoc|]);
         (split; [by right; right; left|done]). }
  destruct (smtp_do (SendMessage m) w3) as [[] w4]; cbn [world trace frame msg];
    destruct (smtp_do Quit w4) as [[] w5]; cbn [world trace frame msg];
    repeat split;
    exists [Connect "smtp.gmail.com" 587%Z; StartTls;
            Login email_de email_senha; SendMessage m; Quit];
    (split; [by rewrite <- !app_assoc|]);
    (split; [right; right; right; by exists m|]); try done;
    intros _; by exists m.
Qed.

(** X11. Filling the template reads the columns [cep], [logradouro],
    [bairro], [localidade], [uf] in that order and changes nothing: it
    gives a body when the frame has all five, and otherwise raises
    [KeyError] for the first one that is missing. *)
Theorem personalizar_colunas corpo_template cols cep st :
  let '(r, st') := personalizar corpo_template cols cep st in
  st' = st
  ∧ match find (λ c : string, bool_decide (c ∉ cols))
            ["cep"; "logradouro"; "bairro"; "localidade"; "uf"]%list with
    | None => ∃ corpo, r = Ok corpo
    | Some c => r = Raise (KeyError c)
    end.
Proof.
  unfold personalizar, bind, series_get, ret, raise. simpl.
  repeat (case_decide;
          [rewrite bool_decide_false by (intros Hn; by apply Hn)
          |rewrite bool_decide_true by done; by split]).
  split; [done|eauto].
Qed.

(** X12. On a frame that has rows and no column [status], [send_emails]
    raises [KeyError] at the first row: nothing is sent, no cell is
    written and the spreadsheet is not rewritten. *)
Theorem send_emails_sem_status email_senha corpo_template email_de output st cep resto :
  rows (frame st) = cep :: resto →
  "status" ∉ columns (frame st) →
  send_emails email_senha corpo_template email_de output st =
    (Raise (KeyError "status"),
     {| world := world st; trace := trace st; frame := frame st; msg := None |}).
Proof.
  intros Hrows Hcol. rewrite send_emails_run, Hrows. simpl.
  unfold bind, enviar, bind, series_get. by rewrite decide_False.
Qed.

Lemma linhas_relatorio_comprimento cols (linhas : list (gmap string pyval)) :
  "cep" ∈ cols → "status" ∈ cols → "EMAIL" ∈ cols →
  ∃ ls, length ls = length linhas
        ∧ ∀ st, linhas_relatorio cols linhas st = (Ok ls, st).
Proof.
  intros Hcep Hstatus Hemail. induction linhas as [|row linhas (ls & Hlen & IH)].
  - by exists [].
  - eexists (_ :: ls). split; [simpl; by rewrite Hlen|].
    intros st. simpl. unfold bind, series_get.
    rewrite !decide_True by done. unfold ret at 1 2 3. by rewrite IH.
Qed.

Lemma linhas_relatorio_ou cols (linhas : list (gmap string pyval)) :
  (∃ ls, ∀ st, linhas_relatorio cols linhas st = (Ok ls, st))
  ∨ (∃ c, (c ∉ cols)
          ∧ ∀ st, linhas_relatorio cols linhas st = (Raise (KeyError c), st)).
Proof.
  induction linhas as [|row linhas IH].
  - left. by exists [].
  - simpl. unfold bind, series_get.
    destruct (decide ("cep" ∈ cols)) as [Hcep|Hcep];
      [|right; exists "cep"; by split].
    destruct (decide ("status" ∈ cols)) as [Hstatus|Hstatus];
      [|right; exists "status"; by split].
    destruct (decide ("EMAIL" ∈ cols)) as [Hemail|Hemail];
      [|right; exists "EMAIL"; by split].
    unfold ret. cbn beta iota.
    destruct IH as [(ls & Hrun)|(c & Hc & Hrun)].
    + left. eexists. intros st. by rewrite Hrun.
    + right. exists c. split; [done|]. intros st. by rewrite Hrun.
Qed.


(** X14. On a frame that lacks the column [status] or the column
    [EMAIL], [gerar_relatorio_pdf] raises [KeyError] for a column the
    frame does not have, and nothing is handed to the PDF writer. *)
Theorem gerar_relatorio_pdf_sem_coluna output st :
  ("status" ∉ columns (frame st)) ∨ ("EMAIL" ∉ columns (frame st)) →
  ∃ c,
    (c ∉ columns (frame st))
    ∧ gerar_relatorio_pdf output st = (Raise (KeyError c), st).
Proof.
  intros Hcol.
  unfold gerar_relatorio_pdf, bind at 1, get_frame. unfold bind at 1.
  unfold relatorio, bind, column.
  destruct (linhas_relatorio_ou (columns (frame st)) (rows (frame st)))
    as [(ls & Hrun)|(c & Hc & Hrun)]; rewrite Hrun.
  - destruct (decide ("status" ∈ columns (frame st))) as [Hstatus|Hstatus];
      [|by exists "status"].
    destruct Hcol as [Hcol|Hcol]; [done|].
    exists "EMAIL". by rewrite decide_False.
  - by exists c.
Qed.

End NotificadorMais.

(** ** What ['Sucesso'] in the column [EMAIL] stands for *)

Section EnvioRegistrado.
Context {World : Type} `{!Externals World}.

Implicit Types (st : State World) (cep : gmap string pyval) (cols : gset string).

Variable resolvida : nat → Prop.
Variable st0 : State World.

Local Abbreviation K := (envio_registrado resolvida st0).

Lemma envio_registrado_mono st st' :
  K st → frame st' = frame st → (∃ evs, trace st' = trace st ++ evs) → K st'.
Proof.
  intros (evs & Ht & HK) Hf (evs' & Ht'). exists (evs ++ evs').
  rewrite Ht', Ht, app_assoc. split; [done|]. rewrite Hf.
  intros i r Hi Hr. destruct (HK i r Hi Hr) as (Hres & m & Hm).
  split; [done|]. exists m. apply elem_of_app. by left.
Qed.

Lemma envio_registrado_msg st m :
  K st → K {| world := world st; trace := trace st; frame := frame st; msg := m |}.
Proof.
  intros HK. apply (envio_registrado_mono st); [done|done|].
  exists []. by rewrite app_nil_r.
Qed.

Lemma envio_registrado_evento st e w m :
  K st → K {| world := w; trace := trace st ++ [e]; frame := frame st; msg := m |}.
Proof. intros HK. apply (envio_registrado_mono st); eauto. Qed.

Lemma rows_set_at index c v (df : DataFrame) i r :
  rows (set_at index c v df) !! i = Some r →
  (i = index ∧ ∃ r0, rows df !! i = Some r0 ∧ r = <[c:=v]> r0)
  ∨ (i ≠ index ∧ rows df !! i = Some r).
Proof.
  unfold set_at. simpl. destruct (decide (index = i)) as [->|Hne].
  - rewrite list_lookup_alter_eq. destruct (rows df !! i) as [r0|]; [|done].
    intros [= <-]. left. eauto.
  - rewrite list_lookup_alter_ne by done. intros Hi. right. by split.
Qed.

Lemma envio_registrado_erro st index :
  K st →
  K {| world := world st; trace := trace st;
       frame := set_at index "EMAIL" (PStr "Erro") (frame st); msg := msg st |}.
Proof.
  intros (evs & Ht & HK). exists evs. split; [done|]. simpl.
  intros i r [[-> (r0 & Hi & ->)]|[Hne Hi]]%rows_set_at Hr.
  - by rewrite lookup_insert_eq in Hr.
  - by apply (HK i r).
Qed.

Lemma envio_registrado_sucesso st index :
  resolvida index →
  K st → mensagem_entregue index st0 st →
  K {| world := world st; trace := trace st;
       frame := set_at index "EMAIL" (PStr "Sucesso") (frame st); msg := msg st |}.
Proof.
  intros Hres (evs & Ht & HK) (evs' & m & Ht' & Hm). exists evs.
  split; [done|]. simpl.
  intros i r [[-> (r0 & Hi & ->)]|[Hne Hi]]%rows_set_at Hr.
  - split; [done|]. exists m. rewrite Ht in Ht'.
    apply app_inv_head in Ht'. by subst evs'.
  - by apply (HK i r).
Qed.

Lemma mensagem_entregue_mono index st st' :
  mensagem_entregue index st0 st →
  (∃ evs, trace st' = trace st ++ evs) →
  mensagem_entregue index st0 st'.
Proof.
  intros (evs & m & Ht & Hm) (evs' & Ht'). exists (evs ++ evs'), m.
  rewrite Ht', Ht, app_assoc. split; [done|]. apply elem_of_app. by left.
Qed.

Lemma entregar_registrado email_senha email_de index :
  hoare K (entregar email_senha email_de index)
    (λ r st, K st ∧ (r = Ok tt → mensagem_entregue index st0 st)).
Proof.
  intros st HK.
  pose proof (entregar_chamadas email_senha email_de index st) as Hrun.
  destruct (entregar email_senha email_de index st) as [r st'].
  destruct Hrun as (Hf & _ & calls & Ht & _ & Hok). simpl. split.
  - apply (envio_registrado_mono st); eauto.
  - intros Hr. destruct (Hok Hr) as (m & _ & ->).
    destruct HK as (evs & Ht0 & _).
    exists (evs ++ (EvSmtp index <$> [Connect "smtp.gmail.com" 587%Z; StartTls;
                                     Login email_de email_senha;
                                     SendMessage m; Quit])), m.
    rewrite Ht, Ht0, app_assoc. split; [done|].
    apply elem_of_app. right. simpl. set_solver.
Qed.

Lemma at_set_erro_registrado index :
  inv K (at_set index "EMAIL" (PStr "Erro")).
Proof.
  intros st HK. unfold at_set, bind, get_frame, set_frame. simpl.
  by apply envio_registrado_erro.
Qed.

Lemma falha_registrado cols index cep e : inv K (falha cols index cep e).
Proof.
  unfold falha.
  apply inv_bind; [apply inv_the_msg|intros _].
  apply inv_bind; [apply inv_series_get|intros _].
  apply inv_bind; [|intros _; apply at_set_erro_registrado].
  apply inv_log. intros st l. apply envio_registrado_evento.
Qed.

Lemma despachar_registrado email_senha email_de corpo cols index cep :
  resolvida index →
  inv K (despachar email_senha email_de corpo cols index cep).
Proof.
  intros Hres. unfold despachar.
  pose proof (λ st m, envio_registrado_msg st (Some m)) as Hmsg.
  apply inv_bind; [by apply inv_set_header|intros _].
  apply inv_bind; [by apply inv_set_header|intros _].
  apply inv_bind; [apply inv_series_get|intros v].
  apply inv_bind; [by apply inv_set_header|intros _].
  apply inv_bind; [by apply inv_set_content|intros _].
  apply hoare_bind
    with (Q1 := λ r st, K st ∧ (r = Ok tt → mensagem_entregue index st0 st));
    [apply entregar_registrado|by intros e st [HK _]|intros []].
  set (KS := λ st, K st ∧ mensagem_entregue index st0 st).
  apply hoare_conseq with (P' := KS) (Q' := λ _ : res unit, K);
    [|intros st [HK HS]; split; [done|by apply HS]|done].
  apply hoare_bind_inv; [apply inv_the_msg|by intros e st [HK _]|intros _].
  apply hoare_bind_inv; [apply inv_series_get|by intros e st [HK _]|intros _].
  apply hoare_bind_inv; [|by intros e st [HK _]|intros _].
  - apply inv_log. intros st l [HK HS]. split.
    + by apply envio_registrado_evento.
    + apply (mensagem_entregue_mono index st); eauto.
  - intros st [HK HS]. unfold at_set, bind, get_frame, set_frame. simpl.
    by apply envio_registrado_sucesso.
Qed.

Lemma enviar_registrado email_senha corpo_template email_de cols index cep :
  (status_sucesso cep = true → resolvida index) →
  inv K (enviar email_senha corpo_template email_de cols index cep).
Proof.
  intros Hres. unfold enviar.
  apply hoare_bind
    with (Q1 := λ r st, K st ∧ ∀ a, r = Ok a → a = default NaN (cep !! "status")).
  - unfold series_get. case_decide; intros st Hst; (split; [done|]).
    + by intros a [= <-].
    + by intros a [=].
  - by intros e st [Hst _].
  - intros a st [Hst Ha]. specialize (Ha a eq_refl) as ->.
    fold (status_sucesso cep). destruct (status_sucesso cep) eqn:Hs.
    + assert (inv K
                (try_finally
                   (try_except
                      (tentativa email_senha corpo_template email_de cols index cep)
                      (falha cols index cep))
                   (log INFO))) as Hinv; [|by apply Hinv].
      apply inv_try_finally;
        [|apply inv_log; intros st' l; apply envio_registrado_evento].
      apply inv_try_except; [|intros e; apply (falha_registrado cols index cep e)].
      unfold tentativa.
      apply inv_bind; [apply inv_personalizar|intros corpo].
      apply inv_bind; [|intros _; apply despachar_registrado; by apply Hres].
      intros st' HK. by apply envio_registrado_msg.
    + assert (inv K
                (bind (series_get cols cep "cep")
                   (λ _, bind (log INFO)
                           (λ _, at_set index "EMAIL" (PStr "Erro")))))
        as Hinv; [|by apply Hinv].
      apply inv_bind; [apply inv_series_get|intros _].
      apply inv_bind; [|intros _; apply at_set_erro_registrado].
      apply inv_log. intros st' l. apply envio_registrado_evento.
Qed.

Lemma para_cada_registrado email_senha corpo_template email_de cols linhas :
  ∀ index,
    (∀ k cep, linhas !! k = Some cep → status_sucesso cep = true →
              resolvida (index + k)) →
    inv K (para_cada email_senha corpo_template email_de cols index linhas).
Proof.
  induction linhas as [|cep linhas IH]; intros index Hl; simpl.
  - apply inv_ret.
  - apply inv_bind.
    + apply enviar_registrado. intros Hs.
      specialize (Hl 0 cep eq_refl Hs). by rewrite Nat.add_0_r in Hl.
    + intros _. apply IH. intros k cep' Hk Hs.
      replace (S index + k) with (index + S k) by lia. by apply (Hl (S k) cep').
Qed.

End EnvioRegistrado.

(** ** The notifier over a whole batch, continued *)

Section LoteEnviado.
Context {World : Type} `{!Externals World}.

Implicit Types (st : State World) (cep : gmap string pyval) (cols : gset string).

(** X15. Starting from a batch in which no [EMAIL] cell holds
    ['Sucesso'] (as [process] leaves it), every ['Sucesso'] that
    [send_emails] leaves in the column [EMAIL] belongs to a row whose
    status is ['Sucesso'] and for which a message was handed to the relay
    during this run, whether or not [send_emails] raises. *)
Theorem send_emails_sucesso_enviado email_senha corpo_template email_de output st :
  (∀ i r, rows (frame st) !! i = Some r → r !! "EMAIL" ≠ Some (PStr "Sucesso")) →
  let st' := (send_emails email_senha corpo_template email_de output st).2 in
  ∃ evs,
    trace st' = trace st ++ evs
    ∧ ∀ i r, rows (frame st') !! i = Some r →
             r !! "EMAIL" = Some (PStr "Sucesso") →
             linha_sucesso (frame st) i ∧ ∃ m, EvSmtp i (SendMessage m) ∈ evs.
Proof.
  intros Hnone. rewrite send_emails_run.
  set (st1 := {| world := world st; trace := trace st;
                 frame := frame st; msg := None |}).
  assert (envio_registrado (linha_sucesso (frame st)) st st1) as HK1.
  { exists []. rewrite app_nil_r. split; [done|].
    intros i r Hi Hr. by destruct (Hnone i r Hi). }
  pose proof (para_cada_registrado (linha_sucesso (frame st)) st
                email_senha corpo_template email_de
                (columns (frame st)) (rows (frame st)) 0
                (λ k cep Hk Hs, ex_intro _ cep (conj Hk Hs)) st1 HK1) as HK2.
  destruct (para_cada _ _ _ _ _ _ st1) as [[[]|e] st2]; simpl in HK2 |- *;
    [|exact HK2].
  unfold to_excel, bind, call.
  destruct (excel_write output (frame st2) (world st2)) as [[] w]; simpl;
    exact (envio_registrado_evento _ _ st2
             (EvToExcel output (frame st2)) w (msg st2) HK2).
Qed.

Lemma inv_para_cada (I : State World → Prop)
    email_senha corpo_template email_de cols linhas :
  (∀ st m, I st →
     I {| world := world st; trace := trace st; frame := frame st; msg := Some m |}) →
  (∀ st l, I st →
     I {| world := world st; trace := trace st ++ [EvLog l];
          frame := frame st; msg := msg st |}) →
  (∀ index st v, I st →
     I {| world := world st; trace := trace st;
          frame := set_at index "EMAIL" v (frame st); msg := msg st |}) →
  (∀ index st c w, I st →
     I {| world := w; trace := trace st ++ [EvSmtp index c];
          frame := frame st; msg := msg st |}) →
  ∀ index, inv I (para_cada email_senha corpo_template email_de cols index linhas).
Proof.
  intros Hmsg Hlog Hat Hsmtp.
  induction linhas as [|cep linhas IH]; intros index; simpl.
  - apply inv_ret.
  - apply inv_bind; [|intros _; apply IH].
    apply inv_enviar; [done|done|apply Hat|intros _; apply Hsmtp].
Qed.


Lemma status_sucesso_tem_valor cep :
  status_sucesso cep = true ↔ tem_valor "status" "Sucesso" cep.
Proof.
  unfold status_sucesso, tem_valor.
  destruct (cep !! "status") as [[| | | |s| |]|]; simpl; try by split.
  rewrite String.eqb_eq. split; [by intros ->|by intros [= ->]].
Qed.

Lemma filter_length_le {A} (P Q : A → Prop)
    `{!∀ x, Decision (P x)} `{!∀ x, Decision (Q x)} (l : list A) :
  Forall (λ x, P x → Q x) l → (length (filter P l) ≤ length (filter Q l))%nat.
Proof.
  induction 1 as [|x l Hx _ IH]; [done|]. rewrite !filter_cons.
  destruct (decide (P x)) as [HP|HP].
  - rewrite decide_True by by apply Hx. simpl. lia.
  - destruct (decide (Q x)); simpl; lia.
Qed.

(** X17. After [send_emails] has returned, the report never counts more
    mails sent than codes resolved, nor fewer mails failed than codes
    unresolved: a row has ['Sucesso'] in [EMAIL] only if its status is
    ['Sucesso'], and ['Erro'] in [EMAIL] whenever its status is
    ['Erro']. *)
Theorem relatorio_envios_resolvidos email_senha corpo_template email_de output st st' :
  send_emails email_senha corpo_template email_de output st = (Ok tt, st') →
  "cep" ∈ columns (frame st) →
  "status" ∈ columns (frame st) →
  "EMAIL" ∈ columns (frame st) →
  ∃ rel,
    (∀ st3, relatorio (frame st') st3 = (Ok rel, st3))
    ∧ (total_emails_sucesso rel ≤ total_consultas_sucesso rel)%nat
    ∧ (total_consultas_erro rel ≤ total_emails_erro rel)%nat.
Proof.
  intros Hsend Hcep Hstatus Hemail.
  pose proof (pegada_send_emails email_senha corpo_template email_de output st)
    as [_ Hso].
  pose proof (send_emails_escreve_email _ _ _ _ _ _ Hsend) as Hcells.
  rewrite Hsend in Hso. simpl in Hso.
  destruct Hso as (Hc & _ & Hlen & Hrows).
  destruct (relatorio_run (frame st')) as (rel & Hrun & H1 & H2 & H3 & H4);
    [by apply Hc..|].
  exists rel. rewrite H1, H2, H3, H4. split; [done|].
  assert (∀ i r', rows (frame st') !! i = Some r' →
            ∃ r, rows (frame st) !! i = Some r
                 ∧ r' !! "status" = r !! "status"
                 ∧ if status_sucesso r
                   then True
                   else tem_valor "EMAIL" "Erro" r') as Hlinha.
  { intros i r' Hr'.
    destruct (lookup_lt_is_Some_2 (rows (frame st)) i) as [r Hr].
    { rewrite <- Hlen. by eapply lookup_lt_Some. }
    exists r. split; [done|]. split.
    - destruct (Hrows i) as [_ Hcell]. specialize (Hcell "status" ltac:(done)).
      by rewrite Hr', Hr in Hcell.
    - specialize (Hcells i r Hr). destruct (status_sucesso r); [done|].
      by apply (cell_at_final (frame st') i); [apply Hc| |]. }
  split; apply filter_length_le, Forall_lookup; intros i r' Hr' Hv;
    destruct (Hlinha i r' Hr') as (r & Hr & Hs & He).
  - unfold tem_valor. rewrite Hs. apply status_sucesso_tem_valor.
    destruct (status_sucesso r); [done|].
    unfold tem_valor in Hv, He. congruence.
  - destruct (status_sucesso r) eqn:Hsr; [|done].
    apply status_sucesso_tem_valor in Hsr. unfold tem_valor in Hv, Hsr.
    congruence.
Qed.

End LoteEnviado.

(** ** The files a run leaves *)

Section Arquivos.
Context {World : Type} `{!Externals World}.

Implicit Types (st : State World).

Lemma arquivos_escritos_app (evs evs' : list event) :
  arquivos_escritos (evs ++ evs') = arquivos_escritos evs ++ arquivos_escritos evs'.
Proof. apply omap_app. Qed.

Lemma send_emails_ok_escrita email_senha corpo_template email_de output st st' :
  send_emails email_senha corpo_template email_de output st = (Ok tt, st') →
  ∃ evs,
    trace st' = trace st ++ evs ++ [EvToExcel output (frame st')]
    ∧ arquivos_escritos evs = [].
Proof.
  rewrite send_emails_run.
  set (st1 := {| world := world st; trace := trace st;
                 frame := frame st; msg := None |}).
  set (I := λ st' : State World,
              ∃ evs, trace st' = trace st ++ evs ∧ arquivos_escritos evs = []).
  assert (∀ (st' : State World) (e : event) (w : World) f m,
            match e with EvLog _ | EvSmtp _ _ => True | _ => False end →
            I st' →
            I {| world := w; trace := trace st' ++ [e]; frame := f; msg := m |})
    as Hev.
  { intros st2 e w f m He (evs & Ht & Ha). exists (evs ++ [e]). simpl.
    rewrite Ht, app_assoc. split; [done|].
    rewrite arquivos_escritos_app, Ha. by destruct e. }
  pose proof (inv_para_cada I email_senha corpo_template email_de
                (columns (frame st)) (rows (frame st))
                ltac:(done)
                ltac:(intros st2 l; by apply Hev)
                ltac:(done)
                ltac:(intros index st2 c w; by apply Hev) 0 st1) as Hinv.
  destruct Hinv as (evs & Ht & Ha). { exists []. by rewrite app_nil_r. }
  destruct (para_cada _ _ _ _ _ _ st1) as [[[]|e] st2]; [|done].
  simpl in Ht. unfold to_excel, bind, call, ret, raise.
  destruct (excel_write output (frame st2) (world st2)) as [[] w]; simpl; [|done].
  intros [= <-]. exists evs. simpl. by rewrite Ht, <- app_assoc.
Qed.

Lemma gerar_relatorio_pdf_ok output st st' :
  gerar_relatorio_pdf output st = (Ok tt, st') →
  ∃ rel, trace st' = trace st ++ [EvPdf output rel].
Proof.
  unfold gerar_relatorio_pdf, bind at 1, get_frame. unfold bind at 1.
  destruct (relatorio (frame st) st) as [[rel|e] st1] eqn:Hrel; [|done].
  assert (st1 = st) as ->.
  { revert Hrel. unfold relatorio, bind, column.
    destruct (linhas_relatorio_ou (columns (frame st)) (rows (frame st)))
      as [(ls & Hrun)|(c & Hc & Hrun)]; rewrite Hrun; [|done].
    repeat (case_decide; [|done]). by intros [= _ <-]. }
  unfold bind, call, ret, raise. cbn [world trace frame msg].
  destruct (pdf_write output rel (world st)) as [[] w]; simpl; [|done].
  intros [= <-]. by exists rel.
Qed.

(** X18. A run of [main] that ends normally has written the spreadsheet
    once and nothing else (the batch was empty), or the spreadsheet, the
    spreadsheet again and then the report, in this order. *)
Theorem main_arquivos st st' :
  main st = (Ok tt, st') →
  ∃ evs,
    trace st' = trace st ++ evs
    ∧ (arquivos_escritos evs = [output_file]
       ∨ arquivos_escritos evs = [output_file; output_file; output_pdf]).
Proof.
  unfold main, try_except, bind at 1.
  destruct (process input_file output_file st) as [[[df|]|e] st1] eqn:Hp;
    [|done|done].
  destruct (process_some_completo _ _ _ _ _ Hp)
    as (entrada & w & evs1 & _ & _ & _ & _ & _ & Ht1 & Ha1).
  destruct (df_empty df).
  - unfold log, emit. intros [= <-]. simpl.
    exists (evs1 ++ [EvToExcel output_file df; EvLog INFO; EvLog INFO; EvLog INFO]).
    split; [by rewrite Ht1, <- !app_assoc|]. left.
    by rewrite arquivos_escritos_app, Ha1.
  - unfold bind at 1. unfold set_frame at 1. unfold bind at 1.
    unfold read_text at 1, bind at 1, call. cbn [world trace frame msg].
    destruct (text_read pass_file (world st1)) as [[senha|e] w1]; [|done].
    unfold ret at 1. unfold bind at 1.
    unfold read_text at 1, bind at 1, call. cbn [world trace frame msg].
    destruct (text_read email_template w1) as [[corpo|e] w2]; [|done].
    unfold ret at 1. unfold bind at 1.
    destruct (send_emails _ _ _ _ _) as [[[]|e] st3] eqn:Hs; [|done].
    destruct (send_emails_ok_escrita _ _ _ _ _ _ Hs) as (evs3 & Ht3 & Ha3).
    simpl in Ht3. unfold bind at 1.
    destruct (gerar_relatorio_pdf output_pdf st3) as [[[]|e] st4] eqn:Hg; [|done].
    destruct (gerar_relatorio_pdf_ok _ _ _ Hg) as (rel & Ht4).
    unfold log, emit. intros [= <-]. simpl.
    exists (evs1 ++ [EvToExcel output_file df; EvLog INFO; EvLog INFO]
            ++ [EvReadText pass_file; EvReadText email_template]
            ++ evs3 ++ [EvToExcel output_file (frame st3)]
            ++ [EvPdf output_pdf rel; EvLog INFO]).
    split; [by rewrite Ht4, Ht3, Ht1, <- !app_assoc|]. right.
    rewrite !arquivos_escritos_app, Ha1, Ha3. done.
Qed.

End Arquivos.

(** ** The further properties at concrete inputs *)

Lemma process_lote_witness :
  process input_file output_file (estado_inicial mundo_completo)
  = (Ok (Some lote_processado), apos_process)
  ∧ ∃ entrada w evs,
      csv_read input_file (world (estado_inicial mundo_completo)) = (Ok entrada, w)
      ∧ "CEP" ∈ columns entrada
      ∧ length (rows lote_processado) = length (rows entrada)
      ∧ "EMAIL" ∈ columns lote_processado
      ∧ Forall (λ r, r !! "EMAIL" = Some (PStr "")
                     ∧ (tem_valor "status" "Sucesso" r ∨ tem_valor "status" "Erro" r)
                     ∧ is_Some (r !! "cep")) (rows lote_processado)
      ∧ trace apos_process
        = trace (estado_inicial mundo_completo) ++ evs
          ++ [EvToExcel output_file lote_processado; EvLog INFO; EvLog INFO]
      ∧ arquivos_escritos evs = [].
Proof.
  assert (process input_file output_file (estado_inicial mundo_completo)
          = (Ok (Some lote_processado), apos_process)) as H1
    by (vm_compute; reflexivity).
  pose proof (process_lote input_file output_file (estado_inicial mundo_completo)
                lote_processado apos_process H1) as H.
  split; [exact H1|exact H].
Defined.

Lemma process_sem_arquivo_witness :
  let st := estado_avariado sem_arquivo in
  let ocorrido := [EvReadCsv input_file; EvLog ERROR; EvLog INFO] in
  csv_read input_file (world st) = (Raise FileNotFoundError, sem_arquivo)
  ∧ process input_file output_file st =
      (Ok None,
       {| world := sem_arquivo; trace := trace st ++ ocorrido;
          frame := frame st; msg := msg st |})
  ∧ http_calls ocorrido = []
  ∧ arquivos_escritos ocorrido = [].
Proof.
  intros st ocorrido.
  assert (csv_read input_file (world st) = (Raise FileNotFoundError, sem_arquivo))
    as H1 by reflexivity.
  pose proof (process_sem_arquivo input_file output_file st
                FileNotFoundError sem_arquivo H1) as H.
  split; [exact H1|exact H].
Defined.

Lemma process_consultas_witness :
  let st := estado_inicial mundo_completo in
  csv_read input_file (world st) = (Ok entrada, mundo_completo)
  ∧ "CEP" ∈ columns entrada
  ∧ ∃ evs,
      trace (process input_file output_file st).2 = trace st ++ evs
      ∧ (length (rows entrada) ≤ length (http_calls evs)
         ≤ 2 * length (rows entrada))%nat.
Proof.
  intros st.
  assert (csv_read input_file (world st) = (Ok entrada, mundo_completo))
    as H1 by reflexivity.
  assert ("CEP" ∈ columns entrada) as H2 by (vm_compute; reflexivity).
  pose proof (process_consultas input_file output_file st entrada mundo_completo
                H1 H2) as H.
  split; [exact H1|]. split; [exact H2|exact H].
Defined.

Lemma process_perde_lote_witness :
  let st := estado_avariado bloqueado in
  csv_read input_file (world st) = (Ok entrada, bloqueado)
  ∧ "CEP" ∈ columns entrada
  ∧ (process input_file output_file st).1 = Ok None
  ∧ ∃ registros evs,
      length registros = length (rows entrada)
      ∧ Forall registro_ok registros
      ∧ (length (rows entrada) ≤ length (http_calls evs))%nat
      ∧ trace (process input_file output_file st).2 =
          trace st ++ [EvReadCsv input_file] ++ evs
          ++ [EvToExcel output_file (lote_de registros); EvLog ERROR; EvLog INFO].
Proof.
  intros st.
  assert (csv_read input_file (world st) = (Ok entrada, bloqueado))
    as H1 by reflexivity.
  assert ("CEP" ∈ columns entrada) as H2 by (vm_compute; reflexivity).
  assert ((process input_file output_file st).1 = Ok None) as H3
    by (vm_compute; reflexivity).
  pose proof (process_perde_lote input_file output_file st entrada bloqueado
                H1 H2 H3) as H.
  split; [exact H1|]. split; [exact H2|]. split; [exact H3|exact H].
Defined.

Lemma main_sem_lote_witness :
  let st := estado_inicial mundo_sem_coluna in
  (process input_file output_file st).1 = Ok None
  ∧ let st1 := (process input_file output_file st).2 in
    main st =
      (Raise AttributeError,
       {| world := world st1; trace := trace st1 ++ [EvLog ERROR];
          frame := frame st1; msg := msg st1 |}).
Proof.
  intros st.
  assert ((process input_file output_file st).1 = Ok None) as H1
    by (vm_compute; reflexivity).
  pose proof (main_sem_lote st H1) as H.
  split; [exact H1|exact H].
Defined.

Lemma main_entrada_vazia_witness :
  let st := estado_inicial mundo_vazio in
  csv_read input_file (world st) = (Ok entrada_vazia, mundo_vazio)
  ∧ "CEP" ∈ columns entrada_vazia
  ∧ rows entrada_vazia = []
  ∧ let '(ok, w') := excel_write output_file (lote_de []) mundo_vazio in
    main st =
      (if ok then Ok tt else Raise AttributeError,
       {| world := w';
          trace := trace st ++ [EvReadCsv input_file;
                                EvToExcel output_file (lote_de []);
                                EvLog (if ok then INFO else ERROR); EvLog INFO;
                                EvLog (if ok then INFO else ERROR)];
          frame := frame st; msg := msg st |}).
Proof.
  intros st.
  assert (csv_read input_file (world st) = (Ok entrada_vazia, mundo_vazio))
    as H1 by reflexivity.
  assert ("CEP" ∈ columns entrada_vazia) as H2 by (vm_compute; reflexivity).
  assert (rows entrada_vazia = []) as H3 by reflexivity.
  pose proof (main_entrada_vazia st entrada_vazia mundo_vazio H1 H2 H3) as H.
  split; [exact H1|]. split; [exact H2|]. split; [exact H3|exact H].
Defined.

Lemma main_sem_senha_witness :
  let st := estado_avariado sem_pass in
  process input_file output_file st = (Ok (Some lote_sem_pass), apos_process_sem_pass)
  ∧ df_empty lote_sem_pass = false
  ∧ text_read pass_file (world apos_process_sem_pass)
    = (Raise FileNotFoundError, world apos_process_sem_pass)
  ∧ main st =
      (Raise FileNotFoundError,
       {| world := world apos_process_sem_pass;
          trace := trace apos_process_sem_pass ++ [EvReadText pass_file; EvLog ERROR];
          frame := lote_sem_pass; msg := msg apos_process_sem_pass |}).
Proof.
  intros st.
  assert (process input_file output_file st
          = (Ok (Some lote_sem_pass), apos_process_sem_pass)) as H1
    by (vm_compute; reflexivity).
  assert (df_empty lote_sem_pass = false) as H2 by (vm_compute; reflexivity).
  assert (text_read pass_file (world apos_process_sem_pass)
          = (Raise FileNotFoundError, world apos_process_sem_pass)) as H3
    by (vm_compute; reflexivity).
  pose proof (main_sem_senha st lote_sem_pass apos_process_sem_pass
                FileNotFoundError (world apos_process_sem_pass) H1 H2 H3) as H.
  split; [exact H1|]. split; [exact H2|]. split; [exact H3|exact H].
Defined.

Lemma send_emails_sem_status_witness :
  let st := estado_sem_status in
  let cep := <["CEP" := PStr "01001-000"]> (∅ : gmap string pyval) in
  let resto := [<["CEP" := PStr "00000-000"]> (∅ : gmap string pyval)] in
  rows (frame st) = cep :: resto
  ∧ ("status" ∉ columns (frame st))
  ∧ send_emails "senha" "<p>${cep}</p>" email_de output_file st =
      (Raise (KeyError "status"),
       {| world := world st; trace := trace st; frame := frame st; msg := None |}).
Proof.
  intros st cep resto.
  assert (rows (frame st) = cep :: resto) as H1 by reflexivity.
  assert ("status" ∉ columns (frame st)) as H2.
  { intros Hin. vm_compute in Hin. discriminate. }
  pose proof (send_emails_sem_status "senha" "<p>${cep}</p>" email_de output_file
                st cep resto H1 H2) as H.
  split; [exact H1|]. split; [exact H2|exact H].
Defined.


Lemma gerar_relatorio_pdf_sem_coluna_witness :
  let st := estado_inicial mundo_completo in
  (("status" ∉ columns (frame st)) ∨ ("EMAIL" ∉ columns (frame st)))
  ∧ ∃ c,
      (c ∉ columns (frame st))
      ∧ gerar_relatorio_pdf output_pdf st = (Raise (KeyError c), st).
Proof.
  intros st.
  assert (("status" ∉ columns (frame st)) ∨ ("EMAIL" ∉ columns (frame st))) as H1.
  { left. intros Hin. vm_compute in Hin. discriminate. }
  pose proof (gerar_relatorio_pdf_sem_coluna output_pdf st H1) as H.
  split; [exact H1|exact H].
Defined.

Lemma send_emails_sucesso_enviado_witness :
  let st := antes_envio in
  (∀ i r, rows (frame st) !! i = Some r → r !! "EMAIL" ≠ Some (PStr "Sucesso"))
  ∧ let st' := (send_emails "senha de app" "<p>${cep}</p>" email_de output_file st).2 in
    ∃ evs,
      trace st' = trace st ++ evs
      ∧ ∀ i r, rows (frame st') !! i = Some r →
               r !! "EMAIL" = Some (PStr "Sucesso") →
               linha_sucesso (frame st) i ∧ ∃ m, EvSmtp i (SendMessage m) ∈ evs.
Proof.
  intros st.
  assert (∀ i r, rows (frame st) !! i = Some r → r !! "EMAIL" ≠ Some (PStr "Sucesso"))
    as H1.
  { assert (rows (frame st) = [linha_ok_nova; linha_erro_nova]) as ->
      by (vm_compute; reflexivity).
    intros [|[|i]] r [= <-]; by intros [=]. }
  pose proof (send_emails_sucesso_enviado "senha de app" "<p>${cep}</p>" email_de
                output_file st H1) as H.
  split; [exact H1|exact H].
Defined.


Lemma relatorio_envios_resolvidos_witness :
  send_emails "senha de app" "<p>${cep}</p>" email_de output_file antes_envio
  = (Ok tt, apos_envio)
  ∧ "cep" ∈ columns (frame antes_envio)
  ∧ "status" ∈ columns (frame antes_envio)
  ∧ "EMAIL" ∈ columns (frame antes_envio)
  ∧ ∃ rel,
      (∀ st3 : State Roteiro, relatorio (frame apos_envio) st3 = (Ok rel, st3))
      ∧ (total_emails_sucesso rel ≤ total_consultas_sucesso rel)%nat
      ∧ (total_consultas_erro rel ≤ total_emails_erro rel)%nat.
Proof.
  assert (send_emails "senha de app" "<p>${cep}</p>" email_de output_file antes_envio
          = (Ok tt, apos_envio)) as H1 by (vm_compute; reflexivity).
  assert ("cep" ∈ columns (frame antes_envio)) as H2 by (vm_compute; reflexivity).
  assert ("status" ∈ columns (frame antes_envio)) as H3 by (vm_compute; reflexivity).
  assert ("EMAIL" ∈ columns (frame antes_envio)) as H4 by (vm_compute; reflexivity).
  pose proof (relatorio_envios_resolvidos "senha de app" "<p>${cep}</p>" email_de
                output_file antes_envio apos_envio H1 H2 H3 H4) as H.
  split; [exact H1|]. split; [exact H2|]. split; [exact H3|]. split; [exact H4|exact H].
Defined.

Lemma main_arquivos_witness :
  main (estado_inicial mundo_completo) = (Ok tt, apos_main)
  ∧ ∃ evs,
      trace apos_main = trace (estado_inicial mundo_completo) ++ evs
      ∧ (arquivos_escritos evs = [output_file]
         ∨ arquivos_escritos evs = [output_file; output_file; output_pdf]).
Proof.
  assert (main (estado_inicial mundo_completo) = (Ok tt, apos_main)) as H1
    by (vm_compute; reflexivity).
  pose proof (main_arquivos (estado_inicial mundo_completo) apos_main H1) as H.
  split; [exact H1|exact H].
Defined.
